(** * Arlington hockey rosters: the site generator of [generate_website.py]

    A shallow embedding of the aggregation and linking code of
    [src/generate_website.py] and the properties of its specification.

    Conventions of the embedding:
    - a Python [str] is a [string]; a character is one of the code points
      0..255, and the character classes ([str.isalnum], the regular
      expression classes [\d] and [\s]) are Python's on that range;
    - a pandas DataFrame is the list of its rows, in index order; every
      column holds values of its type (an integer [team_id], strings
      elsewhere), with no missing value;
    - the output directory is a finite map from relative paths to page
      contents, and [open(path, "w")] replaces what the path held;
    - an exception is a value of [exn]; a function that may raise returns a
      [result]. *)

From Stdlib Require Import ZArith NArith Ascii String List Bool Lia.
From Stdlib Require Import Permutation Sorted.
From Stdlib Require Import Numbers.DecimalString.
From stdpp Require Import base option list gmap strings sorting.

Open Scope string_scope.
Open Scope list_scope.

(** ** Characters *)

Module Char.

Definition code (c : ascii) : N := N_of_ascii c.

Definition between (lo hi : N) (c : ascii) : bool :=
  ((lo <=? code c) && (code c <=? hi))%N.

(** [\d] of [re] on a [str] pattern: the decimal digits (category Nd). *)
Definition is_digit (c : ascii) : bool := between 48 57 c.

(** [\s] of [re], which is [str.isspace]: tab to carriage return, the
    four separators 0x1c..0x1f, space, NEL and the no-break space. *)
Definition is_space (c : ascii) : bool :=
  between 9 13 c || between 28 31 c
  || (code c =? 32)%N || (code c =? 133)%N || (code c =? 160)%N.

(** [str.isalnum]: letters, decimal digits, and the characters with a
    digit or numeric value (superscripts and vulgar fractions). *)
Definition isalnum (c : ascii) : bool :=
  between 48 57 c || between 65 90 c || between 97 122 c
  || (code c =? 170)%N || between 178 179 c || (code c =? 181)%N
  || between 185 186 c || between 188 190 c
  || between 192 214 c || between 216 246 c || between 248 255 c.

(** The class [[\s/\\-]] of the season pattern. *)
Definition is_sep (c : ascii) : bool :=
  is_space c || (code c =? 47)%N || (code c =? 92)%N || (code c =? 45)%N.

Definition digit_val (c : ascii) : N := (code c - 48)%N.

End Char.

(** ** The regular expression of [normalize_season]

    [re.search(r'(\d{2,4})[\s/\\-]+(\d{2,4})', season_str)]: a backtracking
    matcher tries the start positions from left to right and, at each one,
    the repetitions from the longest to the shortest; the first success is
    the match. [rep_class] lists the ways a bounded repetition of a
    character class can match, in the order the matcher tries them. *)

Module Re.

Fixpoint rep_class (f : ascii -> bool) (lo hi : nat) (s : list ascii)
  : list (list ascii * list ascii) :=
  match hi, s with
  | S hi', c :: s' =>
      if f c
      then map (fun mr => (c :: fst mr, snd mr)) (rep_class f (pred lo) hi' s')
           ++ (if (lo =? 0)%nat then [([], s)] else [])
      else if (lo =? 0)%nat then [([], s)] else []
  | _, _ => if (lo =? 0)%nat then [([], s)] else []
  end.

(** [class+]: one or more, without an upper bound. *)
Definition plus_class (f : ascii -> bool) (s : list ascii) :=
  rep_class f 1 (length s) s.

(** All matches of the pattern that start at the head of [s], as the pairs
    of the two groups, in backtracking order. *)
Definition match_here (s : list ascii) : list (list ascii * list ascii) :=
  flat_map (fun m1 =>
    flat_map (fun m2 =>
      map (fun m3 => (fst m1, fst m3))
          (rep_class Char.is_digit 2 4 (snd m2)))
      (plus_class Char.is_sep (snd m1)))
    (rep_class Char.is_digit 2 4 s).

(** [re.search]: the first match at the leftmost position that has one;
    the result is [match.groups()]. *)
Fixpoint search (s : list ascii) : option (list ascii * list ascii) :=
  match match_here s with
  | m :: _ => Some m
  | [] => match s with
          | [] => None
          | _ :: s' => search s'
          end
  end.

End Re.

(** ** [normalize_season] (nested in [read_all_csvs]) *)

(** [int(y)] on a token matched by [\d{2,4}]. *)
Definition int_of_digits (y : list ascii) : N :=
  fold_left (fun acc c => (10 * acc + Char.digit_val c)%N) y 0%N.

(** [y = '20' + y if int(y) < 50 else '19' + y], under [if len(y) == 2]. *)
Definition expand_year (y : list ascii) : list ascii :=
  if (length y =? 2)%nat
  then if (int_of_digits y <? 50)%N
       then list_ascii_of_string "20" ++ y
       else list_ascii_of_string "19" ++ y
  else y.

Definition normalize_season (season_str : string) : string :=
  match Re.search (list_ascii_of_string season_str) with
  | Some (y1, y2) =>
      string_of_list_ascii (expand_year y1)
        +:+ "/" +:+ string_of_list_ascii (expand_year y2)
  | None => season_str
  end.

(** ** Strings *)

(** [s.replace(old, new)] for one-character [old] and [new]. *)
Fixpoint replace_char (old new : ascii) (s : string) : string :=
  match s with
  | EmptyString => EmptyString
  | String c s' =>
      String (if Ascii.eqb c old then new else c) (replace_char old new s')
  end.

(** ["".join(c for c in s if f c)]. *)
Fixpoint keep (f : ascii -> bool) (s : string) : string :=
  match s with
  | EmptyString => EmptyString
  | String c s' => if f c then String c (keep f s') else keep f s'
  end.

(** [c.isalnum() or c in "._-"]. *)
Definition safe_char (c : ascii) : bool :=
  Char.isalnum c
  || (Char.code c =? 46)%N || (Char.code c =? 95)%N || (Char.code c =? 45)%N.

(** [s.split('/')[0]]: what stands before the first slash. *)
Fixpoint before_slash (s : string) : string :=
  match s with
  | EmptyString => EmptyString
  | String c s' =>
      if (Char.code c =? 47)%N then EmptyString else String c (before_slash s')
  end.

(** [str(n)] and [f"{n}"] for an integer. *)
Definition str_of_int (n : Z) : string := NilZero.string_of_int (Z.to_int n).

(** *** [int(s)]

    White space around the number is dropped: tab to carriage return and
    space, NEL and the no-break space. The separators 0x1c..0x1f are white
    space for [str.isspace] and [\s], but not for [int]. A sign may come
    first, and the digits may be grouped by single underscores. A number of
    more than 4300 digits is refused (the limit the interpreter sets on the
    digits of an integer string unless it is configured otherwise). [None]
    stands for [ValueError]. *)

Definition int_space (c : ascii) : bool :=
  Char.between 9 13 c
  || (Char.code c =? 32)%N || (Char.code c =? 133)%N || (Char.code c =? 160)%N.

Fixpoint drop_space (l : list ascii) : list ascii :=
  match l with
  | c :: l' => if int_space c then drop_space l' else l
  | [] => []
  end.

Definition strip (l : list ascii) : list ascii :=
  rev (drop_space (rev (drop_space l))).

Definition max_str_digits : N := 4300.

(** The digits after the sign: [acc] is the value and [digits] the number of
    the digits read so far. *)
Fixpoint int_body (acc digits : N) (after_digit : bool) (l : list ascii)
  : option N :=
  match l with
  | [] =>
      if after_digit && (digits <=? max_str_digits)%N then Some acc else None
  | c :: l' =>
      if Char.is_digit c
      then int_body (10 * acc + Char.digit_val c) (digits + 1) true l'
      else if (Char.code c =? 95)%N && after_digit
           then int_body acc digits false l'
           else None
  end.

Definition py_int (s : string) : option Z :=
  match strip (list_ascii_of_string s) with
  | c :: l =>
      if (Char.code c =? 45)%N
      then (fun n => (- Z.of_N n)%Z) <$> int_body 0 0 false l
      else if (Char.code c =? 43)%N then Z.of_N <$> int_body 0 0 false l
      else Z.of_N <$> int_body 0 0 false (c :: l)
  | [] => None
  end.

(** ** Exceptions *)

Inductive exn := FileNotFoundError | ValueError | TypeError.

Inductive result (A : Type) : Type :=
| Ok (a : A)
| Raise (e : exn).
Arguments Ok {A} a.
Arguments Raise {A} e.

Definition rbind {A B} (m : result A) (k : A -> result B) : result B :=
  match m with
  | Ok a => k a
  | Raise e => Raise e
  end.

(** ** Sorting

    [sorted] is stable and only ever asks whether one key is less than
    another. The model is the stable insertion sort: an element is placed
    before the first element of the sorted rest that is not smaller than
    it. *)

Section Sorting.
Context {A K : Type}.

Section Pure.
Variable lt : K -> K -> bool.
Variable key : A -> K.

Fixpoint insert_sorted (x : A) (l : list A) : list A :=
  match l with
  | [] => [x]
  | y :: l' =>
      if lt (key y) (key x) then y :: insert_sorted x l' else x :: l
  end.

Fixpoint sorted (l : list A) : list A :=
  match l with
  | [] => []
  | x :: l' => insert_sorted x (sorted l')
  end.
End Pure.

(** The same sort when the comparison of two keys may raise. A sort can
    only finish after it has linked all entries by comparisons, so with keys
    of two kinds that do not compare it raises whatever order it works in;
    this one raises exactly then ([sorted_r_key_lt_kind],
    [sorted_teams_one_kind]). *)
Section Raising.
Variable lt : K -> K -> result bool.
Variable key : A -> K.

Fixpoint insert_sorted_r (x : A) (l : list A) : result (list A) :=
  match l with
  | [] => Ok [x]
  | y :: l' =>
      rbind (lt (key y) (key x)) (fun b =>
        if b : bool
        then rbind (insert_sorted_r x l') (fun r => Ok (y :: r))
        else Ok (x :: l))
  end.

Fixpoint sorted_r (l : list A) : result (list A) :=
  match l with
  | [] => Ok []
  | x :: l' => rbind (sorted_r l') (insert_sorted_r x)
  end.
End Raising.
End Sorting.

(** [<] on pairs of strings, as Python compares tuples. *)
Definition pair_ltb (a b : string * string) : bool :=
  if String.eqb (fst a) (fst b)
  then String.ltb (snd a) (snd b)
  else String.ltb (fst a) (fst b).

(** ** Rows and frames *)

Record Row := mkRow {
  team_id : Z;
  season : string;
  team_name : string;
  player_name : string;
  fetched_at : string
}.

#[global] Instance Row_eq_dec : EqDecision Row.
Proof. solve_decision. Defined.

(** [drop_duplicates()] and [unique()]: the first of equal entries stays. *)
Fixpoint drop_duplicates {A} `{EqDecision A} (l : list A) : list A :=
  match l with
  | [] => []
  | x :: l' => x :: filter (fun y => y <> x) (drop_duplicates l')
  end.

(** ** [read_all_csvs]

    A globbed file is [Some rows] when [pd.read_csv] and the access to its
    season column succeed, and [None] when the [try] block raises and the
    file is skipped. The list of files is in the order [glob.glob] returns
    them. *)

Definition normalize_row (r : Row) : Row :=
  mkRow (team_id r) (normalize_season (season r)) (team_name r)
        (player_name r) (fetched_at r).

Definition load_csv (file : option (list Row)) : option (list Row) :=
  map normalize_row <$> file.

Definition read_all_csvs (csv_files : list (option (list Row)))
  : result (list Row) :=
  match csv_files with
  | [] => Raise FileNotFoundError
  | _ :: _ =>
      match omap load_csv csv_files with
      | [] => Raise ValueError
      | dataframes => Ok (drop_duplicates (concat dataframes))
      end
  end.

(** ** Entities *)

Definition get_unique_players (df : list Row) : list string :=
  sorted String.ltb id (drop_duplicates (map player_name df)).

Record Team := mkTeam {
  t_team_id : Z;
  t_team_name : string;
  t_season : string
}.

#[global] Instance Team_eq_dec : EqDecision Team.
Proof. solve_decision. Defined.

Definition team_sort_key (x : Team) : string * string :=
  (t_season x, t_team_name x).

Definition get_unique_teams (df : list Row) : list Team :=
  let unique_teams :=
    drop_duplicates
      (map (fun r => mkTeam (team_id r) (team_name r) (season r)) df) in
  sorted pair_ltb team_sort_key unique_teams.

Record TeamData := mkTeamData {
  td_team_id : Z;
  td_team_name : string;
  td_season : string;
  td_players : list string
}.

Definition get_team_data (df : list Row) (tid : Z) (ssn : string)
  : option TeamData :=
  let team_data :=
    filter (fun r => team_id r = tid /\ season r = ssn) df in
  match team_data with
  | [] => None
  | first :: _ =>
      Some (mkTeamData tid (team_name first) ssn
              (sorted String.ltb id
                 (drop_duplicates (map player_name team_data))))
  end.

Record Membership := mkMembership {
  m_team_id : Z;
  m_season : string;
  m_team_name : string;
  m_teammates : list string
}.

Record PlayerData := mkPlayerData {
  pd_player_name : string;
  pd_teams : list Membership
}.

(** The teammates of one row of the player: [sort_values] of the names of
    the rows that carry the row's [team_id] and another player's name. *)
Definition teammates_of (df : list Row) (name : string) (row : Row)
  : list string :=
  sorted String.ltb id
    (map player_name
       (filter (fun r => team_id r = team_id row /\ player_name r <> name) df)).

Definition get_player_data (df : list Row) (name : string) : PlayerData :=
  let player_data := filter (fun r => player_name r = name) df in
  mkPlayerData name
    (map (fun row =>
            mkMembership (team_id row) (season row) (team_name row)
                         (teammates_of df name row))
         player_data).

(** ** Pages

    A page is kept as the values its template interpolates; the text of a
    link is kept before [html.escape]. *)

Record Link := mkLink { href : string; text : string }.

Record TeamLink := mkTeamLink {
  tl_href : string;
  tl_team_name : string;
  tl_season : string
}.

Record HomePage := mkHomePage {
  hp_player_count : nat;
  hp_team_count : nat;
  hp_players : list Link;
  hp_teams : list TeamLink
}.

Record TeamCard := mkTeamCard {
  tc_number : nat;
  tc_team_name : string;
  tc_season : string;
  tc_team_id : Z;
  tc_teammates : list Link
}.

Record PlayerPage := mkPlayerPage {
  pp_player_name : string;
  pp_teams_played : nat;
  pp_unique_teammates : nat;
  pp_cards : list TeamCard
}.

Record TeamPage := mkTeamPage {
  tp_team_name : string;
  tp_season : string;
  tp_team_id : Z;
  tp_total_players : nat;
  tp_players : list Link
}.

Inductive Page :=
| HomeP (p : HomePage)
| PlayerP (p : PlayerPage)
| TeamP (p : TeamPage).

(** ** The output directory and the run *)

Definition M (A : Type) : Type :=
  gmap string Page -> result A * gmap string Page.

Definition ret {A} (a : A) : M A := fun fs => (Ok a, fs).

Definition raise {A} (e : exn) : M A := fun fs => (Raise e, fs).

Definition bind {A B} (m : M A) (k : A -> M B) : M B :=
  fun fs =>
    match m fs with
    | (Ok a, fs') => k a fs'
    | (Raise e, fs') => (Raise e, fs')
    end.

Notation "'do' x <- m ; k" := (bind m (fun x => k))
  (at level 10, x pattern, m at level 100, k at level 200).

Definition lift {A} (r : result A) : M A :=
  match r with
  | Ok a => ret a
  | Raise e => raise e
  end.

(** [with open(path, "w") as f: f.write(content)]. *)
Definition write_file (path : string) (content : Page) : M unit :=
  fun fs => (Ok tt, <[path := content]> fs).

Fixpoint for_each {A} (l : list A) (body : A -> M unit) : M unit :=
  match l with
  | [] => ret tt
  | x :: l' => do _ <- body x; for_each l' body
  end.

(** *** [generate_home_page] *)

Definition home_player_link (player : string) : Link :=
  let safe_filename :=
    replace_char "\" "_" (replace_char "/" "_" (replace_char " " "_" player)) in
  let safe_filename := keep safe_char safe_filename in
  mkLink ("players/" +:+ safe_filename +:+ ".html") player.

Definition home_team_link (team : Team) : TeamLink :=
  let safe_filename :=
    str_of_int (t_team_id team) +:+ "_"
    +:+ replace_char " " "_" (replace_char "/" "_" (t_season team)) in
  let safe_filename := keep safe_char safe_filename in
  mkTeamLink ("teams/" +:+ safe_filename +:+ ".html")
             (t_team_name team) (t_season team).

Definition generate_home_page (players : list string) (teams : list Team)
  : M unit :=
  let player_count := length players in
  let team_count := length teams in
  write_file "index.html"
    (HomeP (mkHomePage player_count team_count
              (map home_player_link players) (map home_team_link teams))).

(** *** [generate_player_page] *)

Inductive sort_key :=
| KInt (n : Z)
| KStr (s : string).

#[global] Instance sort_key_eq_dec : EqDecision sort_key.
Proof. solve_decision. Defined.

(** [int(season.split('/')[0])], and the season itself when that raises. *)
Definition season_key (ssn : string) : sort_key :=
  match py_int (before_slash ssn) with
  | Some n => KInt n
  | None => KStr ssn
  end.

(** [<] on the keys: an integer and a string do not compare. *)
Definition key_lt (a b : sort_key) : result bool :=
  match a, b with
  | KInt x, KInt y => Ok (x <? y)%Z
  | KStr x, KStr y => Ok (String.ltb x y)
  | _, _ => Raise TypeError
  end.

Definition teammate_link (teammate : string) : Link :=
  let teammate_filename :=
    replace_char "\" "_" (replace_char "/" "_" (replace_char " " "_" teammate)) in
  let teammate_filename := keep safe_char teammate_filename in
  mkLink ("../players/" +:+ teammate_filename +:+ ".html") teammate.

Definition team_card (i : nat) (team : Membership) : TeamCard :=
  mkTeamCard i (m_team_name team) (m_season team) (m_team_id team)
             (map teammate_link (m_teammates team)).

(** [teams = sorted(player_data['teams'], key=lambda t: season_key(t['season']))]. *)
Definition sorted_teams (player_data : PlayerData) : result (list Membership) :=
  sorted_r key_lt (fun t => season_key (m_season t)) (pd_teams player_data).

(** The path and the content [generate_player_page] writes. *)
Definition player_page (player_data : PlayerData)
  : result (string * PlayerPage) :=
  let name := pd_player_name player_data in
  rbind (sorted_teams player_data)
    (fun teams =>
       let safe_filename :=
         replace_char "\" "_" (replace_char "/" "_" (replace_char " " "_" name)) in
       let safe_filename := keep safe_char safe_filename in
       let all_teammates : gset string :=
         list_to_set (concat (map m_teammates teams)) in
       Ok ("players/" +:+ safe_filename +:+ ".html",
           mkPlayerPage name (length teams) (size all_teammates)
                        (imap (fun i t => team_card (S i) t) teams))).

Definition generate_player_page (player_data : PlayerData) : M unit :=
  do (path, page) <- lift (player_page player_data);
  write_file path (PlayerP page).

(** *** [generate_team_page] *)

Definition roster_link (player : string) : Link :=
  let safe_player_filename :=
    replace_char "\" "_" (replace_char "/" "_" (replace_char " " "_" player)) in
  let safe_player_filename := keep safe_char safe_player_filename in
  mkLink ("../players/" +:+ safe_player_filename +:+ ".html") player.

Definition team_page (team_data : TeamData) : string * TeamPage :=
  let safe_filename :=
    str_of_int (td_team_id team_data) +:+ "_"
    +:+ replace_char " " "_" (replace_char "/" "_" (td_season team_data)) in
  let safe_filename := keep safe_char safe_filename in
  ("teams/" +:+ safe_filename +:+ ".html",
   mkTeamPage (td_team_name team_data) (td_season team_data)
              (td_team_id team_data) (length (td_players team_data))
              (map roster_link (td_players team_data))).

Definition generate_team_page (team_data : TeamData) : M unit :=
  write_file (fst (team_page team_data)) (TeamP (snd (team_page team_data))).

(** *** [main] *)

Definition main (csv_files : list (option (list Row))) : M unit :=
  do df <- lift (read_all_csvs csv_files);
  let players := get_unique_players df in
  let teams := get_unique_teams df in
  do _ <- generate_home_page players teams;
  do _ <- for_each players
            (fun player => generate_player_page (get_player_data df player));
  for_each teams
    (fun team =>
       match get_team_data df (t_team_id team) (t_season team) with
       | Some team_data => generate_team_page team_data
       | None => ret tt
       end).

(** ** Vocabulary of the properties *)

(** A year token of the season pattern: two to four digits. *)
Definition year_token (y : list ascii) : Prop :=
  forallb Char.is_digit y = true /\ 2 <= length y <= 4.

(** A separator of the season pattern: one or more characters among white
    space, slash, backslash and hyphen. *)
Definition separator (sep : list ascii) : Prop :=
  forallb Char.is_sep sep = true /\ 1 <= length sep.

(** [s] holds two year tokens with a separator between them, after [pre]. *)
Definition occurs_at (pre y1 sep y2 post s : list ascii) : Prop :=
  s = pre ++ y1 ++ sep ++ y2 ++ post
  /\ year_token y1 /\ separator sep /\ year_token y2.

Definition has_pattern (s : list ascii) : Prop :=
  exists pre y1 sep y2 post, occurs_at pre y1 sep y2 post s.

(** The first occurrence of the season pattern, as the search takes it: no
    occurrence starts further to the left, and the second token is as long
    as it can be (it has four digits, or no digit follows it). The first
    token and the separator leave no choice: a separator ends the first
    token and a digit ends the separator. *)
Definition leftmost (pre s : list ascii) : Prop :=
  forall pre' z1 sep' z2 post',
    occurs_at pre' z1 sep' z2 post' s -> length pre <= length pre'.

Definition longest (y2 post : list ascii) : Prop :=
  length y2 = 4 \/ forall c post', post = c :: post' -> Char.is_digit c = false.

Definition first_occurrence (pre y1 sep y2 post s : list ascii) : Prop :=
  occurs_at pre y1 sep y2 post s /\ leftmost pre s /\ longest y2 post.

(** An occurrence of two numeric tokens as the specification words them:
    each token is a whole number of the season, with no digit before its
    first and none after its last digit. *)
Definition whole_tokens (pre y1 sep y2 post s : list ascii) : Prop :=
  occurs_at pre y1 sep y2 post s
  /\ (forall c, last pre = Some c -> Char.is_digit c = false)
  /\ (forall c, head post = Some c -> Char.is_digit c = false).

(** [a] may stand before [b] in a list sorted by [key]: the key of [b] is
    not less than the key of [a]. *)
Definition in_order {A K} (lt : K -> K -> bool) (key : A -> K) (a b : A)
  : Prop :=
  lt (key b) (key a) = false.

(** The rows the files of a run contribute, in reading order, with their
    seasons normalized. *)
Definition loaded_rows (csv_files : list (option (list Row))) : list Row :=
  concat (omap load_csv csv_files).

(** The teammates of a membership as the specification words them: the
    distinct names recorded for the same team and season, the player apart,
    in sorted order. *)
Definition teammates_spec (df : list Row) (name : string) (tid : Z)
  (ssn : string) : list string :=
  sorted String.ltb id
    (drop_duplicates
       (map player_name
          (filter (fun r => team_id r = tid /\ season r = ssn
                            /\ player_name r <> name) df))).

(** The rows of the files as they are read, before normalization. *)
Definition raw_rows (csv_files : list (option (list Row))) : list Row :=
  concat (omap id csv_files).

(** The four columns that identify a record in the specification. *)
Definition record_of (r : Row) : Z * string * string * string :=
  (team_id r, season r, team_name r, player_name r).

(** The order of the team list: by season, then by team name, both as
    strings compared code point by code point. *)
Definition team_le (a b : Team) : Prop :=
  (t_season a <> t_season b /\ String.le (t_season a) (t_season b))
  \/ (t_season a = t_season b /\ String.le (t_team_name a) (t_team_name b)).

(** The year of a membership: the integer before the first slash of its
    season, when there is one. *)
Definition year_of (m : Membership) : option Z :=
  py_int (before_slash (m_season m)).

Definition year_le (a b : Membership) : Prop :=
  exists x y, year_of a = Some x /\ year_of b = Some y /\ (x <= y)%Z.

(** Whether a key is an integer. *)
Definition is_int_key (k : sort_key) : bool :=
  match k with
  | KInt _ => true
  | KStr _ => false
  end.

(** The comparison of keys where it does not raise. *)
Definition key_ltb (a b : sort_key) : bool :=
  match a, b with
  | KInt x, KInt y => (x <? y)%Z
  | KStr x, KStr y => String.ltb x y
  | _, _ => false
  end.

(** The slug of a player and the path of the player's page, as
    [generate_player_page] makes them. *)
Definition player_slug (name : string) : string :=
  keep safe_char
    (replace_char "\" "_" (replace_char "/" "_" (replace_char " " "_" name))).

Definition player_file (name : string) : string :=
  "players/" +:+ player_slug name +:+ ".html".

(** The slug of a team instance and the path of its page, as
    [generate_team_page] makes them. *)
Definition team_slug (tid : Z) (ssn : string) : string :=
  keep safe_char
    (str_of_int tid +:+ "_" +:+ replace_char " " "_" (replace_char "/" "_" ssn)).

Definition team_file (t : Team) : string :=
  "teams/" +:+ team_slug (t_team_id t) (t_season t) +:+ ".html".

(** A loop body that, on the elements of [l], writes one file or raises
    before it writes. *)
Definition writes_file {A} (body : A -> M unit) (file : A -> string)
  (outcome : A -> result Page) (l : list A) : Prop :=
  forall x fs, x ∈ l ->
    body x fs = match outcome x with
                | Ok page => (Ok tt, <[file x := page]> fs)
                | Raise e => (Raise e, fs)
                end.

(** The bodies of the two loops of [main]. *)
Definition player_body (df : list Row) (player : string) : M unit :=
  generate_player_page (get_player_data df player).

Definition team_body (df : list Row) (team : Team) : M unit :=
  match get_team_data df (t_team_id team) (t_season team) with
  | Some team_data => generate_team_page team_data
  | None => ret tt
  end.

(** What the two bodies write: the page of the player, and the page of a
    team of the team list (every team of the list has one). *)
Definition player_outcome (df : list Row) (player : string) : result Page :=
  rbind (player_page (get_player_data df player))
        (fun written => Ok (PlayerP (snd written))).

Definition team_outcome (df : list Row) (team : Team) : result Page :=
  match get_team_data df (t_team_id team) (t_season team) with
  | Some team_data => Ok (TeamP (snd (team_page team_data)))
  | None => Raise ValueError
  end.

(** The home page [main] writes. *)
Definition home_page (df : list Row) : Page :=
  HomeP (mkHomePage (length (get_unique_players df))
                    (length (get_unique_teams df))
                    (map home_player_link (get_unique_players df))
                    (map home_team_link (get_unique_teams df))).

(** The links to player pages that a page holds, and the path from the
    directory of the page to the output directory. *)
Definition player_links (page : Page) : list Link :=
  match page with
  | HomeP home => hp_players home
  | PlayerP player => concat (map tc_teammates (pp_cards player))
  | TeamP team => tp_players team
  end.

Definition to_root (page : Page) : string :=
  match page with
  | HomeP _ => ""
  | PlayerP _ | TeamP _ => "../"
  end.

(** *** Datasets of the examples *)

(** One team fetched twice: the two crawls differ in [fetched_at] only. *)
Definition recrawled_files : list (option (list Row)) :=
  [ Some [ mkRow 1 "23/24 Season" "Lightning" "Alex Lee" "2025-01-05T10:00:00";
           mkRow 1 "23/24 Season" "Lightning" "Sam Roy" "2025-01-05T10:00:00" ];
    Some [ mkRow 1 "23/24 Season" "Lightning" "Alex Lee" "2025-02-09T18:30:00";
           mkRow 1 "23/24 Season" "Lightning" "Sam Roy" "2025-02-09T18:30:00" ] ].

(** One team id that carries two seasons. *)
Definition two_season_files : list (option (list Row)) :=
  [ Some [ mkRow 7 "2023/2024" "Thunder" "Alex Lee" "2025-01-05T10:00:00";
           mkRow 7 "2024/2025" "Thunder" "Sam Roy" "2025-01-05T10:00:00" ] ].

(** A team listed under two names, and a season without a year. *)
Definition renamed_team_files : list (option (list Row)) :=
  [ Some [ mkRow 3 "(Summer)" "Stars" "Kim Fox" "2025-01-05T10:00:00";
           mkRow 1 "23/24 Season" "Lightning" "Alex Lee" "2025-01-05T10:00:00";
           mkRow 1 "23/24" "Lightning A" "Sam Roy" "2025-01-05T10:00:00" ] ].

(** Two teams of one name in one season, presented in two ways. *)
Definition presentation_a : list (option (list Row)) :=
  [ Some [ mkRow 1 "2023/2024" "Lightning" "Alex Lee" "2025-01-05T10:00:00";
           mkRow 2 "2023/2024" "Lightning" "Alex Lee" "2025-01-05T10:00:00" ] ].

Definition presentation_b : list (option (list Row)) :=
  [ Some [ mkRow 2 "2023/2024" "Lightning" "Alex Lee" "2025-01-05T10:00:00" ];
    Some [ mkRow 1 "2023/2024" "Lightning" "Alex Lee" "2025-01-05T10:00:00" ] ].

(** A player of two leagues whose seasons carry no year. *)
Definition league_files : list (option (list Row)) :=
  [ Some [ mkRow 4 "Spring League" "Comets" "Alex Lee" "2025-01-05T10:00:00";
           mkRow 5 "Fall League" "Rockets" "Alex Lee" "2025-01-05T10:00:00" ] ].

(** Two players whose names differ in a slash and a backslash, and two
    team instances whose seasons differ in a space and a slash. *)
Definition collision_files : list (option (list Row)) :=
  [ Some [ mkRow 1 "2023/2024" "Lightning" "A/B Smith" "2025-01-05T10:00:00";
           mkRow 1 "2023/2024" "Lightning" "A\B Smith" "2025-01-05T10:00:00";
           mkRow 5 "Fall League" "Comets" "Kim Fox" "2025-01-05T10:00:00";
           mkRow 5 "Fall/League" "Rockets" "Lou Ray" "2025-01-05T10:00:00" ] ].

(** A player with a season that carries a year and one that does not. *)
Definition mixed_season_files : list (option (list Row)) :=
  [ Some [ mkRow 1 "2023/2024" "Lightning" "Alex Lee" "2025-01-05T10:00:00";
           mkRow 9 "Fall League" "Thunder" "Alex Lee" "2025-01-05T10:00:00" ] ].

(** ** Vocabulary of the further properties *)

(** The characters of a string. *)
Definition chars (s : string) : list ascii := list_ascii_of_string s.

(** What the three replacements of the player sanitization make of one
    character: a space, a slash and a backslash become an underscore. *)
Definition underscored (c : ascii) : ascii :=
  let c1 := if Ascii.eqb c " " then "_"%char else c in
  let c2 := if Ascii.eqb c1 "/" then "_"%char else c1 in
  if Ascii.eqb c2 "\" then "_"%char else c2.

(** The files a run over the frame [df] writes when it completes, in the
    order of the writes. *)
Definition run_files (df : list Row) : list string :=
  "index.html" :: map player_file (get_unique_players df)
               ++ map team_file (get_unique_teams df).


(** * [fetch_team_roster.py]

    The page is what BeautifulSoup finds in it: the texts are those of
    [get_text(strip=True)], in document order. The response of the server
    and the time of the fetch are inputs. *)

Module Fetch.

(** [c.isdigit()] and [c.isalpha()] on the code points 0..255. *)
Definition char_isdigit (c : ascii) : bool :=
  Char.between 48 57 c || Char.between 178 179 c || (Char.code c =? 185)%N.

Definition char_isalpha (c : ascii) : bool :=
  Char.between 65 90 c || Char.between 97 122 c
  || (Char.code c =? 170)%N || (Char.code c =? 181)%N || (Char.code c =? 186)%N
  || Char.between 192 214 c || Char.between 216 246 c || Char.between 248 255 c.

(** [text.isdigit()]: a digit at least, and digits only. *)
Definition str_isdigit (text : string) : bool :=
  negb (String.eqb text "") && forallb char_isdigit (list_ascii_of_string text).

(** The truth value of a string, and of a string that may be [None]. *)
Definition truthy (text : string) : bool := negb (String.eqb text "").

Definition truthy_opt (text : option string) : bool :=
  match text with
  | Some t => truthy t
  | None => false
  end.

(** One [div.participant.roster]: the text of its first [h3] if it has one,
    the texts of its [h2] elements, and the texts of its [span], [div] and
    [p] elements. *)
Record Participant := mkParticipant {
  h3_text : option string;
  h2_texts : list string;
  other_texts : list string
}.

(** The test on an [h2]: not empty, not a jersey number, not a lone symbol. *)
Definition h2_is_name (text : string) : bool :=
  truthy text && negb (str_isdigit text) && negb (String.eqb text "#")
  && (1 <? String.length text)%nat.

(** The two tests on the other elements. *)
Definition other_is_name (first_name : option string) (text : string) : bool :=
  (truthy text && negb (str_isdigit text) && negb (String.eqb text "#")
   && (1 <? String.length text)%nat
   && negb (bool_decide (Some text = first_name))
   && negb (String.prefix "#" text))
  && (existsb char_isalpha (list_ascii_of_string text)
      && (String.length text <=? 30)%nat).

Definition find_last_name (p : Participant) : option string :=
  match List.find h2_is_name (h2_texts p) with
  | Some text => Some text
  | None => List.find (other_is_name (h3_text p)) (other_texts p)
  end.

(** What the loop makes of a participant: a player, a warning on the
    standard error, or nothing. *)
Inductive extraction :=
| Player (name : string)
| Warning (first_name : string)
| Nothing.

Definition extract (p : Participant) : extraction :=
  let first_name := h3_text p in
  let last_name := find_last_name p in
  if truthy_opt first_name && truthy_opt last_name
     && negb (bool_decide (last_name = Some "#"))
  then Player (default "" first_name +:+ " " +:+ default "" last_name)
  else if truthy_opt first_name && negb (truthy_opt last_name)
  then Warning (default "" first_name)
  else Nothing.

Definition player_of (e : extraction) : option string :=
  match e with
  | Player name => Some name
  | _ => None
  end.

Definition warning_of (e : extraction) : option string :=
  match e with
  | Warning first_name => Some first_name
  | _ => None
  end.

(** [div.team_header]: the texts of its season label and of its [h1]. *)
Record TeamHeader := mkTeamHeader {
  label_text : option string;
  h1_text : option string
}.

Record RosterPage := mkRosterPage {
  team_header : option TeamHeader;
  participants : list Participant
}.

(** [requests.get]: it raises, or returns a status and a page. *)
Inductive response :=
| NoResponse
| Response (status : Z) (soup : RosterPage).

Inductive fetch_error :=
| RequestException
| HTTPError (status : Z).

Record RosterRow := mkRosterRow {
  r_team_id : Z;
  r_season : option string;
  r_team_name : option string;
  r_player_name : string;
  r_fetched_at : string
}.

(** The frame, and the warnings printed on the way. *)
Definition fetch_team_roster (resp : response) (fetched_at : string)
  (team_id : Z) : fetch_error + (list RosterRow * list string) :=
  match resp with
  | NoResponse => inl RequestException
  | Response status soup =>
      if ((400 <=? status) && (status <? 600))%Z then inl (HTTPError status)
      else
        let season := team_header soup ≫= label_text in
        let team_name := team_header soup ≫= h1_text in
        let found := map extract (participants soup) in
        let players := omap player_of found in
        inr (map (fun player =>
                    mkRosterRow team_id season team_name player fetched_at)
                 players,
             omap warning_of found)
  end.

End Fetch.

(** * [crawl_rosters.py]

    The server and the clock are inputs: [http tid] is the response to the
    request for team [tid], [clock tid] the time of that fetch. *)

Module Crawl.

(** [range(a, b)]. *)
Definition range (a b : Z) : list Z :=
  map (fun i => (a + Z.of_nat i)%Z) (seq 0 (Z.to_nat (b - a))).

(** What the loop prints on the standard error after the fetch of [tid]. *)
Definition progress (start_id tid : Z) : string :=
  "." +:+ (if ((tid - start_id + 1) mod 10 =? 0)%Z then " " else "")
      +:+ (if ((tid - start_id + 1) mod 50 =? 0)%Z
           then String (ascii_of_nat 10) "" else "").

(** The state of the loop: the frames collected, the marks printed on the
    standard error, and the team ids reported as failed. *)
Record crawl := mkCrawl {
  frames : list (list Fetch.RosterRow);
  marks : string;
  failed : list Z
}.

Section Driver.
Variable http : Z -> Fetch.response.
Variable clock : Z -> string.

(** The frame of a team id, when its fetch does not raise. *)
Definition fetched (tid : Z) : option (list Fetch.RosterRow) :=
  match Fetch.fetch_team_roster (http tid) (clock tid) tid with
  | inr (df, _) => Some df
  | inl _ => None
  end.

(** One turn of the loop over the team ids. *)
Definition step (start_id : Z) (st : crawl) (tid : Z) : crawl :=
  match Fetch.fetch_team_roster (http tid) (clock tid) tid with
  | inr (df, _) =>
      mkCrawl (frames st ++ [df]) (marks st +:+ progress start_id tid)
              (failed st)
  | inl _ => mkCrawl (frames st) (marks st) (failed st ++ [tid])
  end.

Definition crawl_loop (start_id num_teams : Z) : crawl :=
  fold_left (step start_id) (range start_id (start_id + num_teams))
            (mkCrawl [] "" []).

(** The file [main] saves, if it saves one: its name and its rows. *)
Definition main (start_id num_teams : Z)
  : option (string * list Fetch.RosterRow) :=
  let end_id := (start_id + num_teams - 1)%Z in
  match frames (crawl_loop start_id num_teams) with
  | [] => None
  | fs =>
      Some ("ArlingtonIce-" +:+ str_of_int start_id +:+ "-"
              +:+ str_of_int end_id +:+ ".csv",
            concat fs)
  end.

End Driver.
End Crawl.

(** * Properties *)

(** ** The season normalizer *)

Section Normalizer.

Lemma elem_of_empty_match (lo : nat) (s m r : list ascii) :
  (m, r) ∈ (if (lo =? 0)%nat then [([] : list ascii, s)] else [])
  <-> lo = 0 /\ m = [] /\ r = s.
Proof.
  destruct (Nat.eqb_spec lo 0) as [->|Hlo].
  - rewrite list_elem_of_singleton. split.
    + intros [= -> ->]. done.
    + intros (_ & -> & ->). done.
  - rewrite elem_of_nil. tauto.
Qed.

Lemma rep_class_spec f lo hi s m r :
  (m, r) ∈ Re.rep_class f lo hi s
  <-> s = m ++ r /\ forallb f m = true /\ lo <= length m <= hi.
Proof.
  revert lo s m. induction hi as [|hi IH]; intros lo s m.
  - assert (Re.rep_class f lo 0 s
            = if (lo =? 0)%nat then [([], s)] else []) as ->
      by (by destruct s).
    rewrite elem_of_empty_match. split.
    + intros (-> & -> & ->). simpl. split_and!; auto.
    + intros (-> & _ & Hl). destruct m; simpl in Hl; [|lia].
      split_and!; auto. lia.
  - destruct s as [|c s']; simpl.
    + rewrite elem_of_empty_match. split.
      * intros (-> & -> & ->). simpl. split_and!; auto; lia.
      * intros (Hs & _ & Hl). symmetry in Hs.
        apply app_eq_nil in Hs as [-> ->]. simpl in Hl.
        split_and!; auto. lia.
    + destruct (f c) eqn:Hc.
      * rewrite elem_of_app, list_elem_of_fmap, elem_of_empty_match. split.
        -- intros [([m' r'] & [= -> ->] & Hin) | (-> & -> & ->)].
           ++ apply IH in Hin as (-> & Hf & Hl). simpl. rewrite Hc, Hf.
              split_and!; auto; lia.
           ++ simpl. split_and!; auto; lia.
        -- intros (Hs & Hf & Hl). destruct m as [|c' m'].
           ++ right. simpl in *. subst r. split_and!; auto. lia.
           ++ left. simpl in Hs. injection Hs as <- ->.
              simpl in Hf. apply andb_true_iff in Hf as [_ Hf].
              exists (m', r). split; [done|]. apply IH.
              simpl in Hl. split_and!; auto; lia.
      * rewrite elem_of_empty_match. split.
        -- intros (-> & -> & ->). simpl. split_and!; auto; lia.
        -- intros (Hs & Hf & Hl). destruct m as [|c' m'].
           ++ simpl in *. subst r. split_and!; auto. lia.
           ++ simpl in Hs. injection Hs as <- ->. simpl in Hf.
              rewrite Hc in Hf. done.
Qed.

Lemma plus_class_spec f s m r :
  (m, r) ∈ Re.plus_class f s
  <-> s = m ++ r /\ forallb f m = true /\ 1 <= length m.
Proof.
  unfold Re.plus_class. rewrite rep_class_spec. split.
  - intros (? & ? & ?). split_and!; auto; lia.
  - intros (-> & ? & ?). rewrite length_app. split_and!; auto; lia.
Qed.

Lemma match_here_spec s y1 y2 :
  (y1, y2) ∈ Re.match_here s
  <-> exists sep post, occurs_at [] y1 sep y2 post s.
Proof.
  unfold Re.match_here, occurs_at, year_token, separator.
  rewrite list_elem_of_In, in_flat_map. split.
  - intros ([m1 r1] & H1 & H). apply in_flat_map in H as ([m2 r2] & H2 & H).
    apply list_elem_of_In, list_elem_of_fmap in H as ([m3 r3] & [= -> ->] & H3).
    apply list_elem_of_In, rep_class_spec in H1 as (-> & ? & ?).
    apply list_elem_of_In, plus_class_spec in H2 as (E2 & ? & ?).
    apply rep_class_spec in H3 as (E3 & ? & ?).
    simpl in *. subst. exists m2, r3. split_and!; auto; lia.
  - intros (sep & post & Hs & (? & ?) & (? & ?) & (? & ?)). simpl in Hs.
    exists (y1, sep ++ y2 ++ post). split.
    { apply list_elem_of_In, rep_class_spec. split_and!; auto; lia. }
    apply in_flat_map. exists (sep, y2 ++ post). split.
    { apply list_elem_of_In, plus_class_spec. simpl. split_and!; auto. }
    apply list_elem_of_In, list_elem_of_fmap. exists (y2, post). split; [done|].
    apply rep_class_spec. simpl. split_and!; auto; lia.
Qed.

(** A match found by [search] is an occurrence of the pattern, and no
    occurrence starts further to the left. *)
Lemma search_Some s y1 y2 :
  Re.search s = Some (y1, y2) ->
  exists pre sep post,
    occurs_at pre y1 sep y2 post s
    /\ forall pre' z1 sep' z2 post',
         occurs_at pre' z1 sep' z2 post' s -> length pre <= length pre'.
Proof.
  induction s as [|c s IH].
  - done.
  - cbn [Re.search]. destruct (Re.match_here (c :: s)) as [|m l] eqn:E.
    + intros H. apply IH in H as (pre & sep & post & Hocc & Hleft).
      exists (c :: pre), sep, post. split.
      * destruct Hocc as (-> & ?). split; [done|]. done.
      * intros pre' z1 sep' z2 post' Hocc'. destruct pre' as [|c' pre'].
        -- assert (H : (z1, z2) ∈ Re.match_here (c :: s)).
           { apply match_here_spec. eauto. }
           rewrite E in H. by apply elem_of_nil in H.
        -- destruct Hocc' as (Hs & ?). simpl in Hs. injection Hs as <- Hs.
           simpl. apply le_n_S. eapply Hleft. split; [exact Hs|done].
    + intros [= ->]. assert (H : (y1, y2) ∈ Re.match_here (c :: s)).
      { rewrite E. apply elem_of_cons. by left. }
      apply match_here_spec in H as (sep & post & H).
      exists [], sep, post. split; [done|]. intros. simpl. lia.
Qed.

Lemma search_None s : Re.search s = None -> ~ has_pattern s.
Proof.
  induction s as [|c s IH].
  - intros _ (pre & y1 & sep & y2 & post & Hs & (_ & Hl) & _).
    symmetry in Hs. apply app_eq_nil in Hs as [_ Hs].
    apply app_eq_nil in Hs as [-> _]. simpl in Hl. lia.
  - cbn [Re.search].
    destruct (Re.match_here (c :: s)) as [|m l] eqn:E; [|done].
    intros H (pre & y1 & sep & y2 & post & Hocc). destruct pre as [|c' pre].
    + assert (Hin : (y1, y2) ∈ Re.match_here (c :: s)).
      { apply match_here_spec. eauto. }
      rewrite E in Hin. by apply elem_of_nil in Hin.
    + destruct Hocc as (Hs & ?). simpl in Hs. injection Hs as <- Hs.
      apply (IH H). exists pre, y1, sep, y2, post. split; [exact Hs|done].
Qed.

Lemma search_complete s : has_pattern s -> is_Some (Re.search s).
Proof.
  intros H. destruct (Re.search s) as [m|] eqn:E; [by eexists|].
  by apply search_None in E.
Qed.

Lemma list_ascii_of_string_app a b :
  list_ascii_of_string (a +:+ b)
  = list_ascii_of_string a ++ list_ascii_of_string b.
Proof. induction a as [|c a IH]; simpl; [done|]. by rewrite IH. Qed.

Lemma digit_not_sep c : Char.is_digit c = true -> Char.is_sep c = false.
Proof. destruct c as [[] [] [] [] [] [] [] []]; vm_compute; congruence. Qed.

Lemma expand_year_other y : length y <> 2 -> expand_year y = y.
Proof.
  intros H. unfold expand_year. by destruct (Nat.eqb_spec (length y) 2).
Qed.

(** An expanded token is a run of three or four digits. *)
Lemma expand_year_shape y :
  year_token y ->
  forallb Char.is_digit (expand_year y) = true
  /\ 3 <= length (expand_year y) <= 4.
Proof.
  intros [Hd Hl]. unfold expand_year.
  destruct (Nat.eqb_spec (length y) 2) as [E|E].
  - destruct (_ <? _)%N; simpl; rewrite Hd, E; split; auto; lia.
  - split; [done|lia].
Qed.

(** On a canonical season the search finds the two years themselves. *)
Lemma search_canonical e1 e2 :
  forallb Char.is_digit e1 = true -> 3 <= length e1 <= 4 ->
  forallb Char.is_digit e2 = true -> 3 <= length e2 <= 4 ->
  Re.search (e1 ++ "/"%char :: e2) = Some (e1, e2).
Proof.
  intros H1 L1 H2 L2.
  assert (Hslash : Char.is_sep "/" = true) by reflexivity.
  assert (Hslash' : Char.is_digit "/" = false) by reflexivity.
  destruct e1 as [|a1 [|b1 [|c1 [|d1 [|? ?]]]]]; simpl in L1; try lia;
  destruct e2 as [|a2 [|b2 [|c2 [|d2 [|? ?]]]]]; simpl in L2; try lia;
  simpl in H1, H2;
  repeat match goal with
         | H : _ && _ = true |- _ => apply andb_true_iff in H as [? H]
         end;
  repeat match goal with
         | H : Char.is_digit ?c = true |- _ =>
             pose proof (digit_not_sep c H); revert H
         end;
  intros; unfold Re.search, Re.match_here, Re.plus_class;
  repeat (simpl;
          match goal with
          | H : Char.is_digit _ = _ |- _ => rewrite H
          | H : Char.is_sep _ = _ |- _ => rewrite H
          end);
  reflexivity.
Qed.

Lemma flat_map_head {A B} (g : A -> list B) (l : list A) (b : B) (bs : list B) :
  flat_map g l = b :: bs ->
  exists a bs', a ∈ l /\ g a = b :: bs'.
Proof.
  induction l as [|a l IH]; simpl; [done|].
  destruct (g a) as [|b' bs'] eqn:E; simpl.
  - intros H. destruct (IH H) as (a' & bs'' & Hin & Hg).
    exists a', bs''. split; [by apply elem_of_cons; right|done].
  - intros [= -> <-]. exists a, bs'. split; [by apply elem_of_cons; left|done].
Qed.

(** The matcher tries the longest repetition first. *)
Lemma rep_class_head f lo hi s m r l :
  Re.rep_class f lo hi s = (m, r) :: l ->
  forall m' r', (m', r') ∈ Re.rep_class f lo hi s -> length m' <= length m.
Proof.
  revert lo s m r l. induction hi as [|hi IH]; intros lo s m r l.
  - assert (Re.rep_class f lo 0 s
            = if (lo =? 0)%nat then [([], s)] else []) as ->
      by (by destruct s).
    intros _ m' r' Hin. apply elem_of_empty_match in Hin as (_ & -> & _).
    simpl. lia.
  - destruct s as [|c s']; simpl.
    { intros _ m' r' Hin. apply elem_of_empty_match in Hin as (_ & -> & _).
      simpl. lia. }
    destruct (f c) eqn:Hc.
    + destruct (Re.rep_class f (pred lo) hi s') as [|[m0 r0] l0] eqn:E; simpl.
      * intros _ m' r' Hin. apply elem_of_empty_match in Hin as (_ & -> & _).
        simpl. lia.
      * intros [= <- <- <-] m' r' Hin.
        apply elem_of_cons in Hin as [[= -> ->]|Hin]; [done|].
        apply elem_of_app in Hin as [Hin|Hin].
        -- apply list_elem_of_fmap in Hin as ([m1 r1] & [= -> ->] & Hin).
           simpl. apply le_n_S. eapply (IH _ _ _ _ _ E).
           rewrite E. apply elem_of_cons. right. exact Hin.
        -- apply elem_of_empty_match in Hin as (_ & -> & _). simpl. lia.
    + intros _ m' r' Hin. apply elem_of_empty_match in Hin as (_ & -> & _).
      simpl. lia.
Qed.

Lemma forallb_snoc {A} (f : A -> bool) l x :
  forallb f (l ++ [x]) = forallb f l && f x.
Proof. rewrite forallb_app. simpl. by rewrite andb_true_r. Qed.

(** The first match at a position takes the longest second token. *)
Lemma match_here_head s y1 y2 l :
  Re.match_here s = (y1, y2) :: l ->
  exists sep post, occurs_at [] y1 sep y2 post s /\ longest y2 post.
Proof.
  unfold Re.match_here. intros H.
  apply flat_map_head in H as ([m1 r1] & l1 & H1 & H).
  apply flat_map_head in H as ([m2 r2] & l2 & H2 & H).
  cbn [fst snd] in H, H2.
  destruct (Re.rep_class Char.is_digit 2 4 r2) as [|[m3 r3] l3] eqn:E3;
    [done|].
  cbn [map fst] in H. injection H as -> -> _.
  assert (Hin3 : (y2, r3) ∈ Re.rep_class Char.is_digit 2 4 r2).
  { rewrite E3. apply elem_of_cons. by left. }
  apply rep_class_spec in H1 as (-> & D1 & L1).
  apply plus_class_spec in H2 as (-> & D2 & L2).
  pose proof Hin3 as Hspec. apply rep_class_spec in Hspec as (-> & D3 & L3).
  exists m2, r3. split.
  - unfold occurs_at, year_token, separator. simpl. split_and!; auto; lia.
  - unfold longest. destruct (decide (length y2 = 4)) as [?|Hlen]; [by left|].
    right. intros c post' ->. destruct (Char.is_digit c) eqn:Hc; [|done].
    exfalso.
    assert (Hlong : (y2 ++ [c], post')
                      ∈ Re.rep_class Char.is_digit 2 4 (y2 ++ c :: post')).
    { apply rep_class_spec. rewrite <- app_assoc. split; [done|].
      rewrite forallb_snoc, D3, Hc, length_app. simpl. split; [done|lia]. }
    apply (rep_class_head _ _ _ _ _ _ _ E3) in Hlong.
    rewrite length_app in Hlong. simpl in Hlong. lia.
Qed.

(** What [search] finds is the first occurrence. *)
Lemma search_first s y1 y2 :
  Re.search s = Some (y1, y2) ->
  exists pre sep post, first_occurrence pre y1 sep y2 post s.
Proof.
  induction s as [|c s IH].
  - done.
  - cbn [Re.search]. destruct (Re.match_here (c :: s)) as [|m l] eqn:E.
    + intros H. apply IH in H as (pre & sep & post & Hocc & Hleft & Hlong).
      exists (c :: pre), sep, post. split_and!.
      * destruct Hocc as (-> & ?). split; [done|]. done.
      * intros pre' z1 sep' z2 post' Hocc'. destruct pre' as [|c' pre'].
        -- assert (H : (z1, z2) ∈ Re.match_here (c :: s)).
           { apply match_here_spec. eauto. }
           rewrite E in H. by apply elem_of_nil in H.
        -- destruct Hocc' as (Hs & ?). simpl in Hs. injection Hs as <- Hs.
           simpl. apply le_n_S. eapply Hleft. split; [exact Hs|done].
      * done.
    + intros [= ->].
      apply match_here_head in E as (sep & post & Hocc & Hlong).
      exists [], sep, post. split_and!; [done| |done].
      intros ? ? ? ? ? _. simpl. lia.
Qed.

(** A run of characters of a class is not longer than a run from the same
    place that ends where the class ends. *)
Lemma class_prefix_le (f : ascii -> bool) (m m' r r' : list ascii) :
  m ++ r = m' ++ r' ->
  forallb f m = true ->
  (forall c r0, r' = c :: r0 -> f c = false) ->
  length m <= length m'.
Proof.
  revert m'. induction m as [|a m IH]; intros m' E D Hr'.
  - simpl. lia.
  - destruct m' as [|a' m'].
    + simpl in E. simpl in D. apply andb_true_iff in D as [Da _].
      rewrite (Hr' a (m ++ r)) in Da; [done|by rewrite <- E].
    + simpl in E. injection E as <- E. simpl in D.
      apply andb_true_iff in D as [_ D].
      simpl. apply le_n_S. by eapply IH.
Qed.

Lemma app_eq_length {A} (a a' b b' : list A) :
  a ++ b = a' ++ b' -> length a = length a' -> a = a' /\ b = b'.
Proof.
  revert a'. induction a as [|x a IH]; intros [|x' a'] E L; simpl in *;
    try lia; [done|].
  injection E as <- E. destruct (IH a' E) as [-> ->]; [lia|done].
Qed.

Lemma sep_not_digit c : Char.is_sep c = true -> Char.is_digit c = false.
Proof.
  destruct (Char.is_digit c) eqn:E; [|done].
  rewrite (digit_not_sep c E). done.
Qed.

(** Two occurrences that start at one place have the same first token and
    the same separator. *)
Lemma occurs_at_same_start pre y1 sep y2 post z1 sep' z2 post' s :
  occurs_at pre y1 sep y2 post s -> occurs_at pre z1 sep' z2 post' s ->
  y1 = z1 /\ sep = sep' /\ y2 ++ post = z2 ++ post'.
Proof.
  intros (-> & [D1 L1] & [DS LS] & [D2 L2])
         (E & [D1' L1'] & [DS' LS'] & [D2' L2']).
  apply app_inv_head in E.
  assert (Hsep : forall (t p : list ascii) c r0,
            forallb Char.is_sep t = true -> 1 <= length t ->
            t ++ p = c :: r0 -> Char.is_digit c = false).
  { intros [|x t] p c r0 Dt Lt Et; simpl in *; [lia|].
    injection Et as -> _. apply andb_true_iff in Dt as [Dx _].
    by apply sep_not_digit. }
  assert (Hdig : forall (t p : list ascii) c r0,
            forallb Char.is_digit t = true -> 2 <= length t ->
            t ++ p = c :: r0 -> Char.is_sep c = false).
  { intros [|x t] p c r0 Dt Lt Et; simpl in *; [lia|].
    injection Et as -> _. apply andb_true_iff in Dt as [Dx _].
    by apply digit_not_sep. }
  assert (Hy : length y1 = length z1).
  { apply Nat.le_antisymm.
    - apply (class_prefix_le Char.is_digit _ _ _ _ E D1).
      intros c r0. exact (Hsep sep' (z2 ++ post') c r0 DS' LS').
    - apply (class_prefix_le Char.is_digit _ _ _ _ (eq_sym E) D1').
      intros c r0. exact (Hsep sep (y2 ++ post) c r0 DS LS). }
  destruct (app_eq_length _ _ _ _ E Hy) as [-> E'].
  assert (Hs : length sep = length sep').
  { apply Nat.le_antisymm.
    - apply (class_prefix_le Char.is_sep _ _ _ _ E' DS).
      intros c r0. exact (Hdig z2 post' c r0 D2' (proj1 L2')).
    - apply (class_prefix_le Char.is_sep _ _ _ _ (eq_sym E') DS').
      intros c r0. exact (Hdig y2 post c r0 D2 (proj1 L2)). }
  destruct (app_eq_length _ _ _ _ E' Hs) as [-> E'']. done.
Qed.

Lemma longest_le y2 post z2 post' :
  y2 ++ post = z2 ++ post' ->
  forallb Char.is_digit z2 = true -> length z2 <= 4 ->
  longest y2 post -> length z2 <= length y2.
Proof.
  intros E D L [H4|Hpost]; [lia|].
  exact (class_prefix_le Char.is_digit z2 y2 post' post (eq_sym E) D Hpost).
Qed.

(** The first occurrence is unique: it determines the two tokens. *)
Lemma first_occurrence_unique pre y1 sep y2 post pre' z1 sep' z2 post' s :
  first_occurrence pre y1 sep y2 post s ->
  first_occurrence pre' z1 sep' z2 post' s ->
  y1 = z1 /\ y2 = z2.
Proof.
  intros (Hocc & Hleft & Hlong) (Hocc' & Hleft' & Hlong').
  assert (Hlen : length pre = length pre').
  { apply Nat.le_antisymm.
    - eapply Hleft, Hocc'.
    - eapply Hleft', Hocc. }
  assert (Hpre : pre = pre').
  { destruct Hocc as (E & _), Hocc' as (E' & _). rewrite E in E'.
    by destruct (app_eq_length _ _ _ _ E' Hlen). }
  subst pre'.
  destruct (occurs_at_same_start _ _ _ _ _ _ _ _ _ _ Hocc Hocc')
    as (-> & -> & E).
  split; [done|].
  destruct Hocc as (_ & _ & _ & [D2 L2]), Hocc' as (_ & _ & _ & [D2' L2']).
  assert (Hl : length y2 = length z2).
  { apply Nat.le_antisymm.
    - apply (longest_le _ _ _ _ (eq_sym E) D2); [lia|done].
    - apply (longest_le _ _ _ _ E D2'); [lia|done]. }
  by destruct (app_eq_length _ _ _ _ E Hl).
Qed.

(** The result of the search, from any first occurrence. *)
Lemma search_of_first pre y1 sep y2 post s :
  first_occurrence pre y1 sep y2 post s -> Re.search s = Some (y1, y2).
Proof.
  intros Hfirst.
  assert (Hpat : has_pattern s).
  { destruct Hfirst as (Hocc & _). by exists pre, y1, sep, y2, post. }
  apply search_complete in Hpat as [[z1 z2] E]. rewrite E.
  destruct (search_first _ _ _ E) as (pre' & sep' & post' & Hfirst').
  by destruct (first_occurrence_unique _ _ _ _ _ _ _ _ _ _ _ Hfirst Hfirst')
    as [-> ->].
Qed.

(** C7, counterexample. The season [12345/67] holds a number of five digits
    and a number of two: no two whole numbers of two to four digits with a
    separator between them, so the claim returns it unchanged. The search
    takes the last four digits of the first number, and the result is
    [2345/1967]. *)
Lemma partial_token_counterexample :
  (forall pre y1 sep y2 post,
     ~ whole_tokens pre y1 sep y2 post (list_ascii_of_string "12345/67"))
  /\ normalize_season "12345/67" = "2345/1967"
  /\ normalize_season "12345/67" <> "12345/67".
Proof.
  split; [|by split].
  intros pre y1 sep y2 post ((E & [D1 L1] & [DS LS] & [D2 L2]) & Hpre & _).
  assert (Hsep : forall c, c ∈ sep -> Char.is_sep c = true).
  { intros c Hc. rewrite forallb_forall in DS. by apply DS, list_elem_of_In. }
  assert (Hdig : forall c, c ∈ y1 -> Char.is_digit c = true).
  { intros c Hc. rewrite forallb_forall in D1. by apply D1, list_elem_of_In. }
  destruct pre as [|p1 pre].
  - (* the first token starts the season: it holds at most four of the five
       digits, and a digit follows it *)
    destruct y1 as [|a [|b [|c [|d [|? ?]]]]]; simpl in L1; try lia;
    destruct sep as [|x sep]; simpl in LS; try lia;
    simpl in E; simplify_eq;
    (assert (Hx : Char.is_sep x = true)
       by (apply Hsep, elem_of_cons; by left));
    simplify_eq; done.
  - (* a digit stands before the first token, which leaves no place for a
       separator and a second token when it starts after the fourth *)
    assert (Hlen : length (p1 :: pre) + length y1 + length sep + length y2
                   <= 8).
    { apply (f_equal (@length _)) in E. rewrite !length_app in E.
      simpl in E. simpl. lia. }
    destruct pre as [|p2 [|p3 [|p4 pre]]]; simpl in Hlen; try lia;
    simpl in E; simplify_eq.
    + by specialize (Hpre "1"%char eq_refl).
    + by specialize (Hpre "2"%char eq_refl).
    + by specialize (Hpre "3"%char eq_refl).
Qed.

(** C7, amended. The season normalizer is total. It returns the two tokens
    of the first occurrence of the pattern, joined by a slash and each
    two-digit token expanded with the pivot 50, and the season as it is when
    the pattern does not occur. The first occurrence is determined by the
    season; a token of it need not be a whole number. *)
Theorem normalize_season_spec (season_str : string) :
  (forall pre y1 sep y2 post,
     first_occurrence pre y1 sep y2 post (list_ascii_of_string season_str) ->
     normalize_season season_str
     = string_of_list_ascii (expand_year y1)
         +:+ "/" +:+ string_of_list_ascii (expand_year y2))
  /\ (has_pattern (list_ascii_of_string season_str) ->
      exists pre y1 sep y2 post,
        first_occurrence pre y1 sep y2 post (list_ascii_of_string season_str))
  /\ (~ has_pattern (list_ascii_of_string season_str) ->
      normalize_season season_str = season_str)
  /\ (forall a b,
        Char.is_digit a = true -> Char.is_digit b = true ->
        expand_year [a; b]
        = if (10 * Char.digit_val a + Char.digit_val b <? 50)%N
          then list_ascii_of_string "20" ++ [a; b]
          else list_ascii_of_string "19" ++ [a; b])
  /\ (forall y, length y <> 2 -> expand_year y = y)
  /\ normalize_season "23/24" = "2023/2024"
  /\ normalize_season "99/00" = "1999/2000"
  /\ normalize_season "2025/2026 SEASON" = "2025/2026"
  /\ normalize_season "Fall League" = "Fall League"
  /\ normalize_season "12345/67" = "2345/1967"
  /\ normalize_season "23/245" = "2023/245"
  /\ normalize_season "23/24567" = "2023/2456".
Proof.
  split_and!; try reflexivity.
  - intros pre y1 sep y2 post Hfirst. unfold normalize_season.
    by rewrite (search_of_first _ _ _ _ _ _ Hfirst).
  - intros H. apply search_complete in H as [[y1 y2] E].
    destruct (search_first _ _ _ E) as (pre & sep & post & Hfirst).
    by exists pre, y1, sep, y2, post.
  - intros H. unfold normalize_season.
    destruct (Re.search _) as [[y1 y2]|] eqn:E; [|done].
    destruct H. apply search_Some in E as (pre & sep & post & Hocc & _).
    by exists pre, y1, sep, y2, post.
  - apply expand_year_other.
Qed.

Lemma normalize_season_spec_witness :
  (first_occurrence (list_ascii_of_string "1") (list_ascii_of_string "2345")
     (list_ascii_of_string "/") (list_ascii_of_string "67") []
     (list_ascii_of_string "12345/67")
   /\ normalize_season "12345/67"
      = string_of_list_ascii (expand_year (list_ascii_of_string "2345"))
          +:+ "/"
          +:+ string_of_list_ascii (expand_year (list_ascii_of_string "67")))
  /\ (exists pre y1 sep y2 post,
        first_occurrence pre y1 sep y2 post
          (list_ascii_of_string "23 - 24 Season"))
  /\ (~ has_pattern (list_ascii_of_string "Fall League")
      /\ normalize_season "Fall League" = "Fall League").
Proof.
  split; [|split].
  - assert (Hfirst : first_occurrence
                       (list_ascii_of_string "1") (list_ascii_of_string "2345")
                       (list_ascii_of_string "/") (list_ascii_of_string "67") []
                       (list_ascii_of_string "12345/67")).
    { split; [|split].
      - unfold occurs_at, year_token, separator. simpl.
        split_and!; (reflexivity || lia).
      - intros pre' z1 sep' z2 post' (E & [D1 L1] & [DS LS] & _).
        destruct pre' as [|? ?]; [|simpl; lia]. exfalso.
        assert (Hsep : forall c, c ∈ sep' -> Char.is_sep c = true).
        { intros c Hc. rewrite forallb_forall in DS.
          by apply DS, list_elem_of_In. }
        destruct z1 as [|a [|b [|c [|d [|? ?]]]]]; simpl in L1; try lia;
        destruct sep' as [|x sep']; simpl in LS; try lia;
        simpl in E; simplify_eq;
        (assert (Hx : Char.is_sep x = true)
           by (apply Hsep, elem_of_cons; by left));
        simplify_eq; done.
      - right. intros c post' E. discriminate E. }
    split; [exact Hfirst|].
    exact (proj1 (normalize_season_spec "12345/67") _ _ _ _ _ Hfirst).
  - apply (proj1 (proj2 (normalize_season_spec "23 - 24 Season"))).
    exists [], (list_ascii_of_string "23"), (list_ascii_of_string " - "),
      (list_ascii_of_string "24"), (list_ascii_of_string " Season").
    unfold occurs_at, year_token, separator. simpl.
    split_and!; (reflexivity || lia).
  - assert (Hno : ~ has_pattern (list_ascii_of_string "Fall League"))
      by (by apply search_None).
    split; [exact Hno|].
    exact (proj1 (proj2 (proj2 (normalize_season_spec "Fall League"))) Hno).
Defined.

(** C8. Season normalization is idempotent: normalizing a normalized season
    changes nothing, for every input string. *)
Theorem normalize_season_idempotent (x : string) :
  normalize_season (normalize_season x) = normalize_season x.
Proof.
  unfold normalize_season at 2 3.
  destruct (Re.search (list_ascii_of_string x)) as [[y1 y2]|] eqn:E.
  - apply search_Some in E as (pre & sep & post & (_ & T1 & _ & T2) & _).
    destruct (expand_year_shape y1 T1) as [D1 L1].
    destruct (expand_year_shape y2 T2) as [D2 L2].
    unfold normalize_season.
    rewrite !list_ascii_of_string_app, !list_ascii_of_string_of_list_ascii.
    simpl. rewrite (search_canonical _ _ D1 L1 D2 L2).
    rewrite (expand_year_other (expand_year y1)) by lia.
    rewrite (expand_year_other (expand_year y2)) by lia. done.
  - unfold normalize_season. by rewrite E.
Qed.

End Normalizer.

(** ** Sorting *)

Section SortTheory.
Context {A K : Type} (lt : K -> K -> bool) (key : A -> K).

Lemma insert_sorted_perm x l : insert_sorted lt key x l ≡ₚ x :: l.
Proof.
  induction l as [|y l IH]; simpl; [done|].
  destruct (lt (key y) (key x)); [|done].
  rewrite IH. apply Permutation_swap.
Qed.

Lemma sorted_perm l : sorted lt key l ≡ₚ l.
Proof.
  induction l as [|x l IH]; simpl; [done|].
  by rewrite insert_sorted_perm, IH.
Qed.

Lemma elem_of_sorted x l : x ∈ sorted lt key l <-> x ∈ l.
Proof. by rewrite sorted_perm. Qed.

Hypothesis lt_asym : forall a b, lt a b = true -> lt b a = false.

Lemma lt_irrefl a : lt a a = false.
Proof.
  destruct (lt a a) eqn:E; [|done]. pose proof (lt_asym _ _ E). congruence.
Qed.

Lemma insert_sorted_Sorted x l :
  Sorted (in_order lt key) l ->
  Sorted (in_order lt key) (insert_sorted lt key x l).
Proof.
  induction 1 as [|y l Hs IH Hhd]; simpl.
  - by repeat constructor.
  - destruct (lt (key y) (key x)) eqn:E.
    + constructor; [done|]. destruct Hhd as [|z l Hyz]; simpl.
      * constructor. by apply lt_asym.
      * destruct (lt (key z) (key x)); constructor; [done|].
        by apply lt_asym.
    + constructor; [by constructor|]. by constructor.
Qed.

Lemma sorted_Sorted l : Sorted (in_order lt key) (sorted lt key l).
Proof.
  induction l as [|x l IH]; simpl; [constructor|].
  by apply insert_sorted_Sorted.
Qed.

(** Stability: the entries of one key keep the order they came in. *)
Lemma insert_sorted_stable `{EqDecision K} k x l :
  filter (fun y => key y = k) (insert_sorted lt key x l)
  = filter (fun y => key y = k) (x :: l).
Proof.
  induction l as [|y l IH]; simpl; [done|].
  destruct (lt (key y) (key x)) eqn:E; [|done].
  rewrite filter_cons, IH, !filter_cons.
  destruct (decide (key y = k)) as [Hy|Hy], (decide (key x = k)) as [Hx|Hx];
    try done.
  rewrite Hy, Hx, lt_irrefl in E. done.
Qed.

Lemma sorted_stable `{EqDecision K} k l :
  filter (fun y => key y = k) (sorted lt key l)
  = filter (fun y => key y = k) l.
Proof.
  induction l as [|x l IH]; simpl; [done|].
  by rewrite insert_sorted_stable, !filter_cons, IH.
Qed.

End SortTheory.

(** A sort whose comparisons all succeed is the pure sort. *)
Section SortRaising.
Context {A K : Type} (lt_r : K -> K -> result bool) (lt : K -> K -> bool).
Context (key : A -> K).

Lemma insert_sorted_r_pure x l :
  (forall y, y ∈ l -> lt_r (key y) (key x) = Ok (lt (key y) (key x))) ->
  insert_sorted_r lt_r key x l = Ok (insert_sorted lt key x l).
Proof.
  induction l as [|y l IH]; intros H; simpl; [done|].
  rewrite H by (apply elem_of_cons; by left). simpl.
  destruct (lt (key y) (key x)); [|done].
  rewrite IH; [done|]. intros z Hz. apply H, elem_of_cons. by right.
Qed.

Lemma sorted_r_pure l :
  (forall x y, x ∈ l -> y ∈ l -> lt_r (key x) (key y) = Ok (lt (key x) (key y))) ->
  sorted_r lt_r key l = Ok (sorted lt key l).
Proof.
  induction l as [|x l IH]; intros H; simpl; [done|].
  rewrite IH.
  - simpl. apply insert_sorted_r_pure. intros y Hy.
    apply elem_of_sorted in Hy. apply H; apply elem_of_cons; auto.
  - intros y z Hy Hz. apply H; apply elem_of_cons; auto.
Qed.

Lemma insert_sorted_r_perm x l l' :
  insert_sorted_r lt_r key x l = Ok l' -> l' ≡ₚ x :: l.
Proof.
  revert l'. induction l as [|y l IH]; intros l'; simpl.
  - by intros [= <-].
  - destruct (lt_r (key y) (key x)) as [[]|]; simpl; try done.
    + destruct (insert_sorted_r lt_r key x l) as [r|]; simpl; [|done].
      intros [= <-]. rewrite (IH r eq_refl). apply Permutation_swap.
    + by intros [= <-].
Qed.

Lemma sorted_r_perm l l' : sorted_r lt_r key l = Ok l' -> l' ≡ₚ l.
Proof.
  revert l'. induction l as [|x l IH]; intros l'; simpl.
  - by intros [= <-].
  - destruct (sorted_r lt_r key l) as [r|]; simpl; [|done].
    intros H. apply insert_sorted_r_perm in H. by rewrite H, (IH r eq_refl).
Qed.

End SortRaising.

(** *** The orders on strings and on pairs of strings *)

Lemma string_ltb_asym a b : String.ltb a b = true -> String.ltb b a = false.
Proof.
  unfold String.ltb. rewrite (String.compare_antisym b a).
  by destruct (String.compare a b).
Qed.

Lemma string_ltb_le a b : String.ltb b a = false <-> String.le a b.
Proof.
  unfold String.le, String.ltb, String.leb.
  rewrite (String.compare_antisym b a).
  destruct (String.compare a b); simpl; split; try done.
Qed.

Lemma pair_ltb_asym a b : pair_ltb a b = true -> pair_ltb b a = false.
Proof.
  unfold pair_ltb. rewrite (String.eqb_sym (fst b)).
  destruct (String.eqb (fst a) (fst b)); apply string_ltb_asym.
Qed.

(** ** Frames *)

Section Frames.
Context {A : Type} `{EqDecision A}.
Implicit Types l : list A.

Lemma elem_of_drop_duplicates x l : x ∈ drop_duplicates l <-> x ∈ l.
Proof.
  induction l as [|y l IH]; simpl; [done|].
  rewrite !elem_of_cons, list_elem_of_filter, IH.
  destruct (decide (x = y)); tauto.
Qed.

Lemma NoDup_drop_duplicates l : NoDup (drop_duplicates l).
Proof.
  induction l as [|y l IH]; simpl; constructor.
  - rewrite list_elem_of_filter. tauto.
  - by apply NoDup_filter.
Qed.

Lemma drop_duplicates_perm l1 l2 :
  (forall x, x ∈ l1 <-> x ∈ l2) ->
  drop_duplicates l1 ≡ₚ drop_duplicates l2.
Proof.
  intros H. apply NoDup_Permutation; try apply NoDup_drop_duplicates.
  intros x. by rewrite !elem_of_drop_duplicates.
Qed.

Lemma filter_drop_duplicates (P : A -> Prop) `{forall x, Decision (P x)} l :
  filter P (drop_duplicates l) = drop_duplicates (filter P l).
Proof.
  induction l as [|y l IH]; simpl; [done|].
  rewrite !filter_cons. destruct (decide (P y)) as [Hy|Hy]; simpl.
  - f_equal. rewrite <- IH, !list_filter_filter.
    apply list_filter_iff. tauto.
  - rewrite <- IH, list_filter_filter. apply list_filter_iff.
    intros x. split; [tauto|]. intros Hx. split; [done|]. congruence.
Qed.

(** A later copy of an entry is dropped: the list without it has the same
    distinct entries in the same order. *)
Lemma drop_duplicates_later_copy x l1 l2 :
  x ∈ l1 -> drop_duplicates (l1 ++ x :: l2) = drop_duplicates (l1 ++ l2).
Proof.
  induction l1 as [|y l1 IH]; intros Hx; [by apply elem_of_nil in Hx|].
  simpl. f_equal. destruct (decide (x = y)) as [->|Hne].
  - rewrite !filter_drop_duplicates. f_equal.
    rewrite !filter_app, filter_cons. by destruct (decide (y <> y)).
  - apply elem_of_cons in Hx as [?|Hx]; [done|]. by rewrite IH.
Qed.

End Frames.

(** ** Teammates *)

(** C9. A player's own name is never among the teammates of one of their
    memberships, neither in the data of the player nor among the teammate
    links of their page. *)
Theorem teammates_exclude_player (df : list Row) (name : string) :
  (forall m, m ∈ pd_teams (get_player_data df name) ->
             name ∉ m_teammates m)
  /\ (forall path page card link,
        player_page (get_player_data df name) = Ok (path, page) ->
        card ∈ pp_cards page -> link ∈ tc_teammates card ->
        text link <> name).
Proof.
  assert (H : forall m, m ∈ pd_teams (get_player_data df name) ->
                        name ∉ m_teammates m).
  { intros m Hm. simpl in Hm.
    apply list_elem_of_fmap in Hm as (row & -> & _). simpl.
    unfold teammates_of. rewrite elem_of_sorted, list_elem_of_fmap.
    intros (r & Hr & Hin). apply list_elem_of_filter in Hin as [[_ Hne] _].
    simpl in Hr. congruence. }
  split; [exact H|].
  intros path page card link Hpage Hcard Hlink. unfold player_page in Hpage.
  destruct (sorted_teams _) as [teams|] eqn:Hsort; [|done].
  simpl in Hpage. injection Hpage as <- <-. simpl in Hcard.
  apply list_elem_of_lookup in Hcard as [i Hi].
  rewrite list_lookup_imap in Hi.
  destruct (teams !! i) as [m|] eqn:Hm; [|done]. injection Hi as <-.
  simpl in Hlink. apply list_elem_of_fmap in Hlink as (mate & -> & Hmate).
  simpl. intros ->. eapply H; [|exact Hmate].
  apply list_elem_of_lookup_2 in Hm.
  apply sorted_r_perm in Hsort. by rewrite <- Hsort.
Qed.

Lemma teammates_exclude_player_witness :
  let df := [ mkRow 1 "2023/2024" "Lightning" "Alex Lee" "t";
              mkRow 1 "2023/2024" "Lightning" "Sam Roy" "t" ] in
  mkMembership 1 "2023/2024" "Lightning" ["Sam Roy"]
    ∈ pd_teams (get_player_data df "Alex Lee")
  /\ "Alex Lee" ∉ ["Sam Roy"].
Proof.
  intros df.
  assert (H : mkMembership 1 "2023/2024" "Lightning" ["Sam Roy"]
                ∈ pd_teams (get_player_data df "Alex Lee")).
  { vm_compute. apply elem_of_cons. by left. }
  split; [exact H|].
  exact (proj1 (teammates_exclude_player df "Alex Lee") _ H).
Defined.

(** C2 (the code differs). [get_player_data] selects the teammates by
    [team_id] alone and keeps one entry per row, where [get_team_data]
    selects the roster by team and season and keeps distinct names. On a
    team fetched twice every teammate is listed twice, and on a team id that
    carries two seasons a player of the other season is listed; the teammates
    the specification words are [Sam Roy] once, and nobody. *)
Theorem teammates_divergence :
  (exists df,
     read_all_csvs recrawled_files = Ok df
     /\ m_teammates <$> pd_teams (get_player_data df "Alex Lee")
        = [ ["Sam Roy"; "Sam Roy"]; ["Sam Roy"; "Sam Roy"] ]
     /\ teammates_spec df "Alex Lee" 1 "2023/2024" = ["Sam Roy"]
     /\ td_players <$> get_team_data df 1 "2023/2024"
        = Some ["Alex Lee"; "Sam Roy"])
  /\ (exists df,
        read_all_csvs two_season_files = Ok df
        /\ pd_teams (get_player_data df "Alex Lee")
           = [ mkMembership 7 "2023/2024" "Thunder" ["Sam Roy"] ]
        /\ teammates_spec df "Alex Lee" 7 "2023/2024" = []
        /\ td_players <$> get_team_data df 7 "2023/2024"
           = Some ["Alex Lee"]).
Proof. split; eexists; split_and!; reflexivity. Qed.

(** ** Duplicate rows *)

Lemma omap_load_csv_app before rows after :
  omap load_csv (before ++ Some rows :: after)
  = omap load_csv before ++ map normalize_row rows :: omap load_csv after.
Proof. by rewrite omap_app. Qed.

Lemma read_all_csvs_loaded before rows after :
  read_all_csvs (before ++ Some rows :: after)
  = Ok (drop_duplicates (loaded_rows (before ++ Some rows :: after))).
Proof.
  unfold read_all_csvs, loaded_rows.
  destruct (before ++ Some rows :: after) as [|f fs] eqn:E1;
    [by destruct before|].
  rewrite <- E1, omap_load_csv_app.
  destruct (omap load_csv before ++ _ :: _) as [|d ds] eqn:E2; [|done].
  by destruct (omap load_csv before).
Qed.

(** C6, counterexample. The second fetch of a team repeats every record
    with another [fetched_at]; both copies stay in the frame, the player has
    two memberships on the one team, and each lists the teammate twice. *)
Lemma fetched_at_counterexample :
  exists df df1,
    read_all_csvs recrawled_files = Ok df
    /\ read_all_csvs (take 1 recrawled_files) = Ok df1
    /\ length df = 4 /\ length df1 = 2
    /\ pd_teams (get_player_data df1 "Alex Lee")
       = [ mkMembership 1 "2023/2024" "Lightning" ["Sam Roy"] ]
    /\ pd_teams (get_player_data df "Alex Lee")
       = [ mkMembership 1 "2023/2024" "Lightning" ["Sam Roy"; "Sam Roy"];
           mkMembership 1 "2023/2024" "Lightning" ["Sam Roy"; "Sam Roy"] ].
Proof. do 2 eexists. split_and!; reflexivity. Qed.

Section FramesOfRecords.
Context {A B : Type} `{EqDecision A} `{EqDecision B}.

Lemma filter_fmap_other (f : A -> B) (x : A) (l : list A) :
  filter (fun b => b <> f x) (f <$> filter (fun y => y <> x) l)
  = filter (fun b => b <> f x) (f <$> l).
Proof.
  induction l as [|y l IH]; [done|].
  rewrite filter_cons. destruct (decide (y <> x)) as [Hy|Hy].
  - rewrite !fmap_cons, !filter_cons. destruct (decide (f y <> f x)); by rewrite IH.
  - rewrite fmap_cons, (filter_cons _ (f y)).
    destruct (decide (f y <> f x)) as [Hf|Hf]; [|done].
    destruct Hf. f_equal. by destruct (decide (y = x)); [|destruct Hy].
Qed.

(** The distinct values of a column are those of the frame before its equal
    rows were dropped. *)
Lemma drop_duplicates_fmap (f : A -> B) (l : list A) :
  drop_duplicates (f <$> drop_duplicates l) = drop_duplicates (f <$> l).
Proof.
  induction l as [|x l IH]; [done|].
  cbn [drop_duplicates fmap list_fmap]. f_equal.
  rewrite <- IH, !(filter_drop_duplicates (fun b => b <> f x)). f_equal.
  apply filter_fmap_other.
Qed.

(** A later row that repeats a value of a column adds no distinct value. *)
Lemma drop_duplicates_fmap_later (f : A -> B) (x : A) (l1 l2 : list A) :
  f x ∈ f <$> l1 ->
  drop_duplicates (f <$> (l1 ++ x :: l2)) = drop_duplicates (f <$> (l1 ++ l2)).
Proof.
  intros Hx. rewrite !fmap_app, fmap_cons.
  by apply drop_duplicates_later_copy.
Qed.

End FramesOfRecords.

Lemma record_of_columns (a b : Row) :
  record_of a = record_of b ->
  team_id a = team_id b /\ season a = season b
  /\ team_name a = team_name b /\ player_name a = player_name b.
Proof. by intros [= -> -> -> ->]. Qed.

Lemma repeated_column {B} (f : Row -> B) (x : Row) (l : list Row) :
  (forall a b, record_of a = record_of b -> f a = f b) ->
  record_of x ∈ record_of <$> l -> f x ∈ f <$> l.
Proof.
  intros Hf Hx. apply list_elem_of_fmap in Hx as (r0 & E & Hr0).
  apply list_elem_of_fmap. exists r0. split; [by apply Hf|done].
Qed.

(** The roster of a team and season, from the rows as they were loaded. *)
Lemma get_team_data_loaded (l : list Row) (tid : Z) (ssn : string) :
  get_team_data (drop_duplicates l) tid ssn
  = match filter (fun r => team_id r = tid /\ season r = ssn) l with
    | [] => None
    | first :: _ =>
        Some (mkTeamData tid (team_name first) ssn
                (sorted String.ltb id
                   (drop_duplicates
                      (map player_name
                         (filter (fun r => team_id r = tid /\ season r = ssn)
                                 l)))))
    end.
Proof.
  unfold get_team_data. rewrite filter_drop_duplicates.
  destruct (filter _ l) as [|a m] eqn:E; [done|].
  rewrite <- (drop_duplicates_fmap player_name (a :: m)). done.
Qed.

Lemma get_team_data_later_copy (x : Row) (l1 l2 : list Row) tid ssn :
  record_of x ∈ record_of <$> l1 ->
  get_team_data (drop_duplicates (l1 ++ x :: l2)) tid ssn
  = get_team_data (drop_duplicates (l1 ++ l2)) tid ssn.
Proof.
  intros Hx. rewrite !get_team_data_loaded, !filter_app, filter_cons.
  destruct (decide (team_id x = tid /\ season x = ssn)) as [[Ht Hs]|HP];
    [|done].
  apply list_elem_of_fmap in Hx as (r0 & E & Hr0).
  apply record_of_columns in E as (E1 & E2 & _ & E4).
  assert (Hin : r0 ∈ filter (fun r => team_id r = tid /\ season r = ssn) l1).
  { apply list_elem_of_filter. split; [split; congruence|done]. }
  destruct (filter _ l1) as [|a m] eqn:Ef; [by apply elem_of_nil in Hin|].
  assert (Hpn : player_name x ∈ player_name <$> (a :: m)).
  { apply list_elem_of_fmap. exists r0. split; [congruence|done]. }
  cbn [app]. do 3 f_equal.
  exact (drop_duplicates_fmap_later player_name x (a :: m) _ Hpn).
Qed.

Lemma get_unique_players_later_copy (x : Row) (l1 l2 : list Row) :
  record_of x ∈ record_of <$> l1 ->
  get_unique_players (drop_duplicates (l1 ++ x :: l2))
  = get_unique_players (drop_duplicates (l1 ++ l2)).
Proof.
  intros Hx. unfold get_unique_players.
  change (map player_name) with (fmap (M:=list) player_name).
  rewrite !drop_duplicates_fmap. f_equal.
  apply (drop_duplicates_fmap_later player_name).
  apply (repeated_column player_name); [|done].
  intros a b E. by apply record_of_columns in E as (_ & _ & _ & ?).
Qed.

Lemma get_unique_teams_later_copy (x : Row) (l1 l2 : list Row) :
  record_of x ∈ record_of <$> l1 ->
  get_unique_teams (drop_duplicates (l1 ++ x :: l2))
  = get_unique_teams (drop_duplicates (l1 ++ l2)).
Proof.
  intros Hx. unfold get_unique_teams. cbn zeta.
  change (map (fun r => mkTeam (team_id r) (team_name r) (season r)))
    with (fmap (M:=list) (fun r => mkTeam (team_id r) (team_name r) (season r))).
  rewrite !drop_duplicates_fmap. f_equal.
  apply (drop_duplicates_fmap_later
           (fun r => mkTeam (team_id r) (team_name r) (season r))).
  apply (repeated_column
           (fun r => mkTeam (team_id r) (team_name r) (season r)));
    [|done].
  intros a b E. apply record_of_columns in E as (-> & -> & -> & _). done.
Qed.

Lemma loaded_rows_split before rows1 r rows2 after :
  loaded_rows (before ++ Some (rows1 ++ r :: rows2) :: after)
  = (loaded_rows before ++ map normalize_row rows1)
      ++ normalize_row r :: (map normalize_row rows2 ++ loaded_rows after)
  /\ loaded_rows (before ++ Some (rows1 ++ rows2) :: after)
     = (loaded_rows before ++ map normalize_row rows1)
         ++ (map normalize_row rows2 ++ loaded_rows after).
Proof.
  unfold loaded_rows. rewrite !omap_load_csv_app, !concat_app. simpl.
  rewrite !map_app. simpl. by rewrite <- !app_assoc.
Qed.

(** C6, amended. The frame keeps a row unless it equals an earlier row in
    all five columns. A row that repeats an earlier record, whatever its
    [fetched_at], has no effect on the player list, the team list, the
    rosters, the home page and the team pages: they are those of the run
    without the row. A row that repeats an earlier row in all five columns
    has no effect at all: the frame and the run are those of the run without
    it. *)
Theorem repeated_record_effect
  (before after : list (option (list Row))) (rows1 rows2 : list Row) (r : Row) :
  exists df df',
    read_all_csvs (before ++ Some (rows1 ++ r :: rows2) :: after) = Ok df
    /\ read_all_csvs (before ++ Some (rows1 ++ rows2) :: after) = Ok df'
    /\ (record_of (normalize_row r)
          ∈ record_of <$> (loaded_rows before ++ map normalize_row rows1) ->
        get_unique_players df = get_unique_players df'
        /\ get_unique_teams df = get_unique_teams df'
        /\ (forall tid ssn,
              get_team_data df tid ssn = get_team_data df' tid ssn)
        /\ home_page df = home_page df'
        /\ (forall t, team_outcome df t = team_outcome df' t))
    /\ (normalize_row r ∈ loaded_rows before ++ map normalize_row rows1 ->
        df = df'
        /\ (forall name, get_player_data df name = get_player_data df' name)
        /\ forall fs,
             main (before ++ Some (rows1 ++ r :: rows2) :: after) fs
             = main (before ++ Some (rows1 ++ rows2) :: after) fs).
Proof.
  rewrite !read_all_csvs_loaded.
  destruct (loaded_rows_split before rows1 r rows2 after) as [E E'].
  do 2 eexists. split; [reflexivity|]. split; [reflexivity|].
  rewrite E, E'.
  set (l1 := loaded_rows before ++ map normalize_row rows1).
  set (l2 := map normalize_row rows2 ++ loaded_rows after).
  split.
  - intros Hx.
    pose proof (get_unique_players_later_copy _ _ l2 Hx) as Hp.
    pose proof (get_unique_teams_later_copy _ _ l2 Hx) as Ht.
    assert (Hd : forall tid ssn,
              get_team_data (drop_duplicates (l1 ++ normalize_row r :: l2))
                            tid ssn
              = get_team_data (drop_duplicates (l1 ++ l2)) tid ssn)
      by (intros; by apply get_team_data_later_copy).
    split_and!; [done|done|done| |].
    + unfold home_page. by rewrite Hp, Ht.
    + intros t. unfold team_outcome. by rewrite Hd.
  - intros Hx.
    assert (H : drop_duplicates (l1 ++ normalize_row r :: l2)
                = drop_duplicates (l1 ++ l2))
      by (by apply drop_duplicates_later_copy).
    split; [exact H|]. split; [intros; by rewrite H|].
    intros fs. unfold main. rewrite !read_all_csvs_loaded, E, E'.
    fold l1 l2. by rewrite H.
Qed.

Lemma repeated_record_effect_witness :
  let jan := "2025-01-05T10:00:00" in
  let feb := "2025-02-09T18:30:00" in
  let alex t := mkRow 1 "23/24 Season" "Lightning" "Alex Lee" t in
  let sam t := mkRow 1 "23/24 Season" "Lightning" "Sam Roy" t in
  (exists df df',
     read_all_csvs ([Some [alex jan; sam jan]]
                      ++ Some ([alex feb] ++ sam feb :: []) :: []) = Ok df
     /\ read_all_csvs ([Some [alex jan; sam jan]]
                         ++ Some ([alex feb] ++ []) :: []) = Ok df'
     /\ length df = 4 /\ length df' = 3
     /\ get_unique_players df = get_unique_players df'
     /\ get_unique_teams df = get_unique_teams df'
     /\ get_team_data df 1 "2023/2024" = get_team_data df' 1 "2023/2024"
     /\ home_page df = home_page df')
  /\ (exists df df',
        read_all_csvs ([Some [alex jan; sam jan]]
                         ++ Some ([alex feb] ++ sam jan :: []) :: []) = Ok df
        /\ read_all_csvs ([Some [alex jan; sam jan]]
                            ++ Some ([alex feb] ++ []) :: []) = Ok df'
        /\ length df' = 3
        /\ df = df'
        /\ get_player_data df "Alex Lee" = get_player_data df' "Alex Lee").
Proof.
  intros jan feb alex sam. split.
  - destruct (repeated_record_effect [Some [alex jan; sam jan]] []
                [alex feb] [] (sam feb))
      as (df & df' & Hdf & Hdf' & Hrec & _).
    destruct Hrec as (Hp & Ht & Hd & Hh & _).
    { vm_compute. apply elem_of_cons. right. apply elem_of_cons. by left. }
    exists df, df'.
    split; [exact Hdf|]. split; [exact Hdf'|].
    vm_compute in Hdf, Hdf'.
    injection Hdf as Hdf. injection Hdf' as Hdf'.
    split; [by rewrite <- Hdf|]. split; [by rewrite <- Hdf'|].
    split; [exact Hp|]. split; [exact Ht|]. split; [apply Hd|exact Hh].
  - destruct (repeated_record_effect [Some [alex jan; sam jan]] []
                [alex feb] [] (sam jan))
      as (df & df' & Hdf & Hdf' & _ & Hrow).
    destruct Hrow as (He & Hpd & _).
    { vm_compute. apply elem_of_cons. right. apply elem_of_cons. by left. }
    exists df, df'.
    split; [exact Hdf|]. split; [exact Hdf'|].
    vm_compute in Hdf'. injection Hdf' as Hdf'.
    split; [by rewrite <- Hdf'|]. split; [exact He|apply Hpd].
Defined.

(** ** The team list *)

Lemma in_order_team_le a b :
  in_order pair_ltb team_sort_key a b <-> team_le a b.
Proof.
  unfold in_order, team_le, pair_ltb, team_sort_key. simpl.
  destruct (String.eqb_spec (t_season b) (t_season a)) as [E|E].
  - rewrite string_ltb_le. split; [auto|]. intros [[? _]|[_ ?]]; congruence.
  - rewrite string_ltb_le. split; [auto|]. intros [[_ ?]|[? _]]; congruence.
Qed.

Lemma Sorted_iff {A} (R1 R2 : A -> A -> Prop) l :
  (forall a b, R1 a b <-> R2 a b) -> Sorted R1 l -> Sorted R2 l.
Proof.
  intros H. induction 1 as [|x l _ IH Hhd]; constructor; [done|].
  destruct Hhd; constructor. by apply H.
Qed.

(** C5, counterexample. A team listed under two names has two entries in
    the team list, and a season without a year stands before the seasons
    with one when its first character is below the digits. *)
Lemma team_list_counterexample :
  exists df,
    read_all_csvs renamed_team_files = Ok df
    /\ get_unique_teams df
       = [ mkTeam 3 "Stars" "(Summer)";
           mkTeam 1 "Lightning" "2023/2024";
           mkTeam 1 "Lightning A" "2023/2024" ]
    /\ ~ NoDup (map (fun t => (t_team_id t, t_season t)) (get_unique_teams df)).
Proof.
  eexists. split_and!; try reflexivity.
  vm_compute. intros H. apply NoDup_cons in H as [_ H].
  apply NoDup_cons in H as [H _]. apply H, elem_of_cons. by left.
Qed.

(** C5, amended. The team list holds exactly one entry per distinct
    (team_id, team_name, season) of the frame, in ascending order of
    (season, team_name), both compared as strings; entries of equal season
    and name keep the order in which they were first seen. Every listed team
    has a page, and the page carries the name of the first row of its
    (team_id, season). *)
Theorem team_list_spec (df : list Row) :
  NoDup (get_unique_teams df)
  /\ (forall t, t ∈ get_unique_teams df
                <-> exists r, r ∈ df
                    /\ t = mkTeam (team_id r) (team_name r) (season r))
  /\ Sorted team_le (get_unique_teams df)
  /\ (forall k,
        filter (fun t => team_sort_key t = k) (get_unique_teams df)
        = filter (fun t => team_sort_key t = k)
            (drop_duplicates
               (map (fun r => mkTeam (team_id r) (team_name r) (season r)) df)))
  /\ (forall t, t ∈ get_unique_teams df ->
        exists before first after,
          df = before ++ first :: after
          /\ team_id first = t_team_id t /\ season first = t_season t
          /\ Forall (fun r => ~ (team_id r = t_team_id t
                                 /\ season r = t_season t)) before
          /\ td_team_name <$> get_team_data df (t_team_id t) (t_season t)
             = Some (team_name first)).
Proof.
  assert (Hin : forall t, t ∈ get_unique_teams df
                <-> exists r, r ∈ df
                    /\ t = mkTeam (team_id r) (team_name r) (season r)).
  { intros t. unfold get_unique_teams.
    rewrite elem_of_sorted, elem_of_drop_duplicates, list_elem_of_fmap.
    split; intros (r & ? & ?); eauto. }
  split_and!.
  - unfold get_unique_teams. rewrite sorted_perm.
    apply NoDup_drop_duplicates.
  - exact Hin.
  - eapply Sorted_iff; [apply in_order_team_le|].
    apply sorted_Sorted, pair_ltb_asym.
  - intros k. apply sorted_stable, pair_ltb_asym.
  - intros t Ht. apply Hin in Ht as (r & Hr & ->). simpl.
    unfold get_team_data.
    destruct (filter _ df) as [|first rest] eqn:E.
    { assert (H : r ∈ filter (fun r0 => team_id r0 = team_id r
                                        /\ season r0 = season r) df)
        by (by apply list_elem_of_filter).
      rewrite E in H. by apply elem_of_nil in H. }
    assert (Hhd : head (filter (fun r0 => team_id r0 = team_id r
                                          /\ season r0 = season r) df)
                  = Some first) by (by rewrite E).
    apply head_filter_Some in Hhd as (before & after & -> & Hbefore).
    assert (Hf : first ∈ filter (fun r0 => team_id r0 = team_id r
                                           /\ season r0 = season r)
                           (before ++ first :: after))
      by (rewrite E; apply elem_of_cons; by left).
    apply list_elem_of_filter in Hf as [[? ?] _].
    exists before, first, after. split_and!; auto.
Qed.

Lemma team_list_spec_witness :
  exists df,
    read_all_csvs renamed_team_files = Ok df
    /\ mkTeam 1 "Lightning A" "2023/2024" ∈ get_unique_teams df
    /\ td_team_name <$> get_team_data df 1 "2023/2024" = Some "Lightning".
Proof.
  eexists. split; [reflexivity|].
  match goal with |- ?t ∈ get_unique_teams ?df /\ _ =>
    assert (H : t ∈ get_unique_teams df)
      by (vm_compute; do 2 (apply elem_of_cons; right);
          apply elem_of_cons; by left);
    split; [exact H|];
    destruct (proj2 (proj2 (proj2 (proj2 (team_list_spec df)))) t H)
      as (? & ? & ? & _ & _ & _ & _ & _)
  end.
  reflexivity.
Defined.

(** ** The order of the memberships *)

Lemma Sorted_weaken {A} (R1 R2 : A -> A -> Prop) (l : list A) :
  (forall a b, a ∈ l -> b ∈ l -> R1 a b -> R2 a b) ->
  Sorted R1 l -> Sorted R2 l.
Proof.
  intros H Hs. induction Hs as [|x l _ IH Hhd]; constructor.
  - apply IH. intros a b Ha Hb. apply H; apply elem_of_cons; auto.
  - destruct Hhd as [|y l Hxy]; constructor.
    apply H; [|apply elem_of_cons; right|]; try (apply elem_of_cons; by left).
    done.
Qed.

Lemma filter_ext_in {A} (P1 P2 : A -> Prop)
  `{!forall x, Decision (P1 x), !forall x, Decision (P2 x)} (l : list A) :
  (forall x, x ∈ l -> P1 x <-> P2 x) -> filter P1 l = filter P2 l.
Proof.
  induction l as [|x l IH]; intros Hext; [done|].
  rewrite !filter_cons, IH
    by (intros y Hy; apply Hext, elem_of_cons; by right).
  assert (Hx : P1 x <-> P2 x) by (apply Hext, elem_of_cons; by left).
  destruct (decide (P1 x)), (decide (P2 x)); tauto.
Qed.

Lemma key_ltb_asym a b : key_ltb a b = true -> key_ltb b a = false.
Proof.
  destruct a, b; simpl; try done.
  - intros H. apply Z.ltb_lt in H. apply Z.ltb_ge. lia.
  - apply string_ltb_asym.
Qed.

Lemma key_lt_kind a b :
  key_lt a b
  = if Bool.eqb (is_int_key a) (is_int_key b)
    then Ok (key_ltb a b) else Raise TypeError.
Proof. by destruct a, b. Qed.

Lemma season_key_int m n :
  season_key (m_season m) = KInt n <-> year_of m = Some n.
Proof.
  unfold season_key, year_of. destruct (py_int _); split; congruence.
Qed.

Lemma season_key_str m s :
  year_of m = None -> season_key (m_season m) = KStr s <-> m_season m = s.
Proof.
  unfold season_key, year_of. intros ->. split; congruence.
Qed.

(** The memberships of a player whose keys are of one kind are sorted
    without an exception, by the pure stable sort. *)
Lemma sorted_teams_one_kind player_data :
  (forall a b, a ∈ pd_teams player_data -> b ∈ pd_teams player_data ->
     is_int_key (season_key (m_season a))
     = is_int_key (season_key (m_season b))) ->
  sorted_teams player_data
  = Ok (sorted key_ltb (fun t => season_key (m_season t))
               (pd_teams player_data)).
Proof.
  intros H. apply sorted_r_pure. intros x y Hx Hy.
  rewrite key_lt_kind, (H x y Hx Hy). by destruct (is_int_key _).
Qed.

Lemma player_page_cards player_data teams :
  sorted_teams player_data = Ok teams ->
  exists path page,
    player_page player_data = Ok (path, page)
    /\ pp_cards page = imap (fun i t => team_card (S i) t) teams.
Proof. intros H. unfold player_page. rewrite H. simpl. eauto. Qed.

(** C4, counterexample. Two memberships whose seasons carry no year come
    out in the order of the season strings, not in the order in which they
    were discovered. *)
Lemma unparsable_order_counterexample :
  exists df,
    read_all_csvs league_files = Ok df
    /\ pd_teams (get_player_data df "Alex Lee")
       = [ mkMembership 4 "Spring League" "Comets" [];
           mkMembership 5 "Fall League" "Rockets" [] ]
    /\ year_of <$> pd_teams (get_player_data df "Alex Lee") = [None; None]
    /\ sorted_teams (get_player_data df "Alex Lee")
       = Ok [ mkMembership 5 "Fall League" "Rockets" [];
              mkMembership 4 "Spring League" "Comets" [] ].
Proof. eexists. split_and!; reflexivity. Qed.

(** C4, amended. When every season of the player yields a year, the
    memberships on the page are in ascending order of the year, and those of
    one year keep their discovery order. When no season yields a year, they
    are in ascending order of the season string, and those of one season
    keep their discovery order. *)
Theorem membership_order (player_data : PlayerData) :
  (Forall (fun m => is_Some (year_of m)) (pd_teams player_data) ->
   exists teams path page,
     sorted_teams player_data = Ok teams
     /\ player_page player_data = Ok (path, page)
     /\ pp_cards page = imap (fun i t => team_card (S i) t) teams
     /\ teams ≡ₚ pd_teams player_data
     /\ Sorted year_le teams
     /\ forall y,
          filter (fun m => year_of m = Some y) teams
          = filter (fun m => year_of m = Some y) (pd_teams player_data))
  /\ (Forall (fun m => year_of m = None) (pd_teams player_data) ->
      exists teams path page,
        sorted_teams player_data = Ok teams
        /\ player_page player_data = Ok (path, page)
        /\ pp_cards page = imap (fun i t => team_card (S i) t) teams
        /\ teams ≡ₚ pd_teams player_data
        /\ Sorted (fun a b => String.le (m_season a) (m_season b)) teams
        /\ forall s,
             filter (fun m => m_season m = s) teams
             = filter (fun m => m_season m = s) (pd_teams player_data)).
Proof.
  set (key := fun t => season_key (m_season t)).
  set (l := pd_teams player_data).
  split; intros Hall; rewrite Forall_forall in Hall.
  - assert (Hint : forall m, m ∈ l -> exists n,
                     year_of m = Some n /\ key m = KInt n).
    { intros m Hm. destruct (Hall m Hm) as [n Hn]. exists n.
      split; [done|]. by apply season_key_int. }
    assert (Hsort : sorted_teams player_data = Ok (sorted key_ltb key l)).
    { apply sorted_teams_one_kind. intros a b Ha Hb.
      destruct (Hint a Ha) as (? & _ & Ea), (Hint b Hb) as (? & _ & Eb).
      unfold key in Ea, Eb. by rewrite Ea, Eb. }
    destruct (player_page_cards _ _ Hsort) as (path & page & Hp & Hc).
    exists (sorted key_ltb key l), path, page. split_and!; auto.
    + apply sorted_perm.
    + eapply Sorted_weaken; [|apply sorted_Sorted, key_ltb_asym].
      intros a b Ha Hb. rewrite elem_of_sorted in Ha, Hb.
      destruct (Hint a Ha) as (x & Hx & Hkx), (Hint b Hb) as (y & Hy & Hky).
      unfold in_order. rewrite Hkx, Hky. simpl. intros Hlt.
      exists x, y. split_and!; auto. apply Z.ltb_ge in Hlt. lia.
    + intros y.
      rewrite (list_filter_iff (fun m => year_of m = Some y)
                               (fun m => key m = KInt y))
        by (intros m; symmetry; apply season_key_int).
      rewrite (list_filter_iff (fun m => year_of m = Some y)
                               (fun m => key m = KInt y) l)
        by (intros m; symmetry; apply season_key_int).
      apply sorted_stable, key_ltb_asym.
  - assert (Hstr : forall m, m ∈ l -> key m = KStr (m_season m)).
    { intros m Hm. apply season_key_str; auto. }
    assert (Hsort : sorted_teams player_data = Ok (sorted key_ltb key l)).
    { apply sorted_teams_one_kind. intros a b Ha Hb.
      pose proof (Hstr a Ha) as Ea. pose proof (Hstr b Hb) as Eb.
      unfold key in Ea, Eb. by rewrite Ea, Eb. }
    destruct (player_page_cards _ _ Hsort) as (path & page & Hp & Hc).
    exists (sorted key_ltb key l), path, page. split_and!; auto.
    + apply sorted_perm.
    + eapply Sorted_weaken; [|apply sorted_Sorted, key_ltb_asym].
      intros a b Ha Hb. rewrite elem_of_sorted in Ha, Hb.
      unfold in_order. rewrite (Hstr a Ha), (Hstr b Hb). simpl.
      apply string_ltb_le.
    + intros s.
      rewrite (filter_ext_in (fun m => m_season m = s)
                             (fun m => key m = KStr s) (sorted _ _ _))
        by (intros m Hm; apply elem_of_sorted in Hm;
            symmetry; apply season_key_str; auto).
      rewrite (filter_ext_in (fun m => m_season m = s)
                             (fun m => key m = KStr s) l)
        by (intros m Hm; symmetry; apply season_key_str; auto).
      apply sorted_stable, key_ltb_asym.
Qed.

Lemma membership_order_witness :
  let player_data :=
    mkPlayerData "Alex Lee"
      [ mkMembership 2 "2024/2025" "Thunder" [];
        mkMembership 1 "2023/2024" "Lightning" ["Sam Roy"] ] in
  Forall (fun m => is_Some (year_of m)) (pd_teams player_data)
  /\ exists teams path page,
       sorted_teams player_data = Ok teams
       /\ player_page player_data = Ok (path, page)
       /\ pp_cards page = imap (fun i t => team_card (S i) t) teams
       /\ teams ≡ₚ pd_teams player_data
       /\ Sorted year_le teams
       /\ forall y,
            filter (fun m => year_of m = Some y) teams
            = filter (fun m => year_of m = Some y) (pd_teams player_data).
Proof.
  intros player_data.
  assert (H : Forall (fun m => is_Some (year_of m)) (pd_teams player_data)).
  { repeat constructor; vm_compute; eauto. }
  split; [exact H|]. exact (proj1 (membership_order player_data) H).
Defined.

(** ** Presentations of one set of records *)

Lemma loaded_rows_raw csv_files :
  loaded_rows csv_files = map normalize_row (raw_rows csv_files).
Proof.
  unfold loaded_rows, raw_rows.
  induction csv_files as [|[rows|] files IH]; simpl; [done| |done].
  rewrite map_app. f_equal. exact IH.
Qed.

Lemma read_all_csvs_Ok csv_files df :
  read_all_csvs csv_files = Ok df ->
  df = drop_duplicates (loaded_rows csv_files).
Proof.
  unfold read_all_csvs, loaded_rows. destruct csv_files; [done|].
  destruct (omap load_csv _); [done|]. by intros [= <-].
Qed.

Lemma frames_perm files1 files2 df1 df2 :
  raw_rows files1 ≡ₚ raw_rows files2 ->
  read_all_csvs files1 = Ok df1 -> read_all_csvs files2 = Ok df2 ->
  df1 ≡ₚ df2.
Proof.
  intros Hraw H1 H2. apply read_all_csvs_Ok in H1 as ->.
  apply read_all_csvs_Ok in H2 as ->. apply drop_duplicates_perm.
  intros r. by rewrite !loaded_rows_raw, Hraw.
Qed.

Lemma Sorted_strings l : Sorted String.le (sorted String.ltb id l).
Proof.
  eapply Sorted_iff; [|apply sorted_Sorted, string_ltb_asym].
  intros a b. apply string_ltb_le.
Qed.

(** Sorting strings gives one list for all orders of the same entries. *)
Lemma sorted_strings_perm l1 l2 :
  l1 ≡ₚ l2 -> sorted String.ltb id l1 = sorted String.ltb id l2.
Proof.
  intros H. apply (Sorted_unique String.le); try apply Sorted_strings.
  by rewrite !sorted_perm.
Qed.

Lemma get_unique_players_perm df1 df2 :
  df1 ≡ₚ df2 -> get_unique_players df1 = get_unique_players df2.
Proof.
  intros H. apply sorted_strings_perm, drop_duplicates_perm.
  intros x. by rewrite H.
Qed.

Lemma teammates_of_perm df1 df2 name row :
  df1 ≡ₚ df2 -> teammates_of df1 name row = teammates_of df2 name row.
Proof. intros H. apply sorted_strings_perm. by rewrite H. Qed.

Lemma pd_teams_perm df1 df2 name :
  df1 ≡ₚ df2 ->
  pd_teams (get_player_data df1 name) ≡ₚ pd_teams (get_player_data df2 name).
Proof.
  intros H. simpl.
  rewrite (map_ext _ (fun row =>
             mkMembership (team_id row) (season row) (team_name row)
                          (teammates_of df2 name row)))
    by (intros row; by rewrite (teammates_of_perm df1 df2)).
  by rewrite H.
Qed.

(** The sort of the memberships succeeds exactly when the keys are of one
    kind, and otherwise raises [TypeError]. *)
Lemma sorted_r_key_lt_kind {A} (key : A -> sort_key) l l' :
  sorted_r key_lt key l = Ok l' ->
  forall a b, a ∈ l -> b ∈ l -> is_int_key (key a) = is_int_key (key b).
Proof.
  revert l'. induction l as [|x l IH]; intros l' H a b Ha Hb.
  { by apply elem_of_nil in Ha. }
  simpl in H. destruct (sorted_r key_lt key l) as [r|] eqn:Hr; [|done].
  simpl in H. pose proof (sorted_r_perm _ _ _ _ Hr) as Hperm.
  assert (Hx : forall c, c ∈ l -> is_int_key (key c) = is_int_key (key x)).
  { intros c Hc. destruct r as [|y r'].
    - rewrite <- Hperm in Hc. by apply elem_of_nil in Hc.
    - simpl in H. rewrite key_lt_kind in H.
      destruct (Bool.eqb _ _) eqn:E; [|done]. apply Bool.eqb_prop in E.
      rewrite <- E. apply (IH _ eq_refl); [done|].
      rewrite <- Hperm. apply elem_of_cons. by left. }
  apply elem_of_cons in Ha as [->|Ha], Hb as [->|Hb]; auto.
  - symmetry. auto.
  - by apply (IH _ eq_refl).
Qed.

Lemma sorted_r_key_lt_raise {A} (key : A -> sort_key) l e :
  sorted_r key_lt key l = Raise e -> e = TypeError.
Proof.
  assert (Hins : forall x r, insert_sorted_r key_lt key x r = Raise e ->
                             e = TypeError).
  { intros x r. induction r as [|y r IH]; simpl; [done|].
    rewrite key_lt_kind. destruct (Bool.eqb _ _); simpl; [|congruence].
    destruct (key_ltb _ _); [|done].
    destruct (insert_sorted_r key_lt key x r); simpl; [done|].
    intros [= ->]. by apply IH. }
  induction l as [|x l IH]; simpl; [done|].
  destruct (sorted_r key_lt key l) as [r|e'] eqn:Hr; simpl.
  - apply Hins.
  - intros [= ->]. by apply IH.
Qed.

Lemma sorted_teams_perm pd1 pd2 :
  pd_teams pd1 ≡ₚ pd_teams pd2 ->
  match sorted_teams pd1, sorted_teams pd2 with
  | Ok teams1, Ok teams2 => teams1 ≡ₚ teams2
  | Raise e1, Raise e2 => e1 = e2
  | _, _ => False
  end.
Proof.
  intros H.
  assert (Hok : forall pa pb teams,
            pd_teams pa ≡ₚ pd_teams pb -> sorted_teams pa = Ok teams ->
            exists teams', sorted_teams pb = Ok teams').
  { intros pa pb teams Hp Ha. eexists. apply sorted_teams_one_kind.
    intros a b Ha' Hb'. rewrite <- Hp in Ha', Hb'.
    by apply (sorted_r_key_lt_kind _ _ _ Ha). }
  destruct (sorted_teams pd1) as [t1|e1] eqn:E1,
           (sorted_teams pd2) as [t2|e2] eqn:E2.
  - apply sorted_r_perm in E1, E2. by rewrite E1, E2.
  - destruct (Hok pd1 pd2 t1 H E1). congruence.
  - destruct (Hok pd2 pd1 t2 (symmetry H) E2). congruence.
  - apply sorted_r_key_lt_raise in E1, E2. congruence.
Qed.

(** C3, counterexample. Two teams of one name in one season, and a player
    on both: the order of the two teams in the team list, and of the two
    memberships on the player's page, is the order of the rows, which the
    two presentations of the same records give differently. *)
Lemma presentation_counterexample :
  raw_rows presentation_a ≡ₚ raw_rows presentation_b
  /\ exists df1 df2,
       read_all_csvs presentation_a = Ok df1
       /\ read_all_csvs presentation_b = Ok df2
       /\ get_unique_teams df1
          = [ mkTeam 1 "Lightning" "2023/2024"; mkTeam 2 "Lightning" "2023/2024" ]
       /\ get_unique_teams df2
          = [ mkTeam 2 "Lightning" "2023/2024"; mkTeam 1 "Lightning" "2023/2024" ]
       /\ sorted_teams (get_player_data df1 "Alex Lee")
          = Ok [ mkMembership 1 "2023/2024" "Lightning" [];
                 mkMembership 2 "2023/2024" "Lightning" [] ]
       /\ sorted_teams (get_player_data df2 "Alex Lee")
          = Ok [ mkMembership 2 "2023/2024" "Lightning" [];
                 mkMembership 1 "2023/2024" "Lightning" [] ].
Proof.
  split; [apply Permutation_swap|]. do 2 eexists. split_and!; reflexivity.
Qed.

(** C3, amended. For two presentations of the same records, the player
    list and the links made from it are identical. The team list and every
    player's memberships hold the same entries in both runs, sorted by the
    same key ((season, team_name) for teams, the season key for
    memberships); entries with equal keys follow the order of the rows, so
    the two runs may order them differently. A player's page is made in both
    runs or raises the same exception in both. *)
Theorem presentation_independence
  (files1 files2 : list (option (list Row))) (df1 df2 : list Row) :
  raw_rows files1 ≡ₚ raw_rows files2 ->
  read_all_csvs files1 = Ok df1 ->
  read_all_csvs files2 = Ok df2 ->
  get_unique_players df1 = get_unique_players df2
  /\ map home_player_link (get_unique_players df1)
     = map home_player_link (get_unique_players df2)
  /\ get_unique_teams df1 ≡ₚ get_unique_teams df2
  /\ Sorted team_le (get_unique_teams df1)
  /\ Sorted team_le (get_unique_teams df2)
  /\ map home_team_link (get_unique_teams df1)
     ≡ₚ map home_team_link (get_unique_teams df2)
  /\ forall name,
       pd_teams (get_player_data df1 name)
       ≡ₚ pd_teams (get_player_data df2 name)
       /\ match sorted_teams (get_player_data df1 name),
                sorted_teams (get_player_data df2 name) with
          | Ok teams1, Ok teams2 =>
              teams1 ≡ₚ teams2
              /\ Sorted (in_order key_ltb (fun t => season_key (m_season t)))
                        teams1
              /\ Sorted (in_order key_ltb (fun t => season_key (m_season t)))
                        teams2
          | Raise e1, Raise e2 => e1 = e2
          | _, _ => False
          end.
Proof.
  intros Hraw H1 H2. pose proof (frames_perm _ _ _ _ Hraw H1 H2) as Hdf.
  assert (Hteams : get_unique_teams df1 ≡ₚ get_unique_teams df2).
  { unfold get_unique_teams. rewrite !sorted_perm.
    apply drop_duplicates_perm. intros t. by rewrite Hdf. }
  assert (Hsorted : forall df, Sorted team_le (get_unique_teams df)).
  { intros df. eapply Sorted_iff; [apply in_order_team_le|].
    apply sorted_Sorted, pair_ltb_asym. }
  split_and!; auto.
  - by apply get_unique_players_perm.
  - by rewrite (get_unique_players_perm df1 df2).
  - by rewrite Hteams.
  - intros name. pose proof (pd_teams_perm df1 df2 name Hdf) as Hpd.
    split; [done|]. pose proof (sorted_teams_perm _ _ Hpd) as Hs.
    destruct (sorted_teams (get_player_data df1 name)) as [t1|] eqn:E1,
             (sorted_teams (get_player_data df2 name)) as [t2|] eqn:E2;
      try done.
    split_and!; [done| |].
    + pose proof (sorted_r_key_lt_kind _ _ _ E1) as Hk.
      apply sorted_teams_one_kind in Hk. rewrite E1 in Hk.
      injection Hk as ->. apply sorted_Sorted, key_ltb_asym.
    + pose proof (sorted_r_key_lt_kind _ _ _ E2) as Hk.
      apply sorted_teams_one_kind in Hk. rewrite E2 in Hk.
      injection Hk as ->. apply sorted_Sorted, key_ltb_asym.
Qed.

Lemma presentation_independence_witness :
  exists df1 df2,
    read_all_csvs presentation_a = Ok df1
    /\ read_all_csvs presentation_b = Ok df2
    /\ get_unique_players df1 = get_unique_players df2
    /\ get_unique_teams df1 ≡ₚ get_unique_teams df2.
Proof.
  do 2 eexists. split; [reflexivity|]. split; [reflexivity|].
  match goal with |- get_unique_players ?a = get_unique_players ?b /\ _ =>
    destruct (presentation_independence presentation_a presentation_b a b)
      as (Hp & _ & Ht & _)
  end; [apply Permutation_swap|reflexivity|reflexivity|].
  split; [exact Hp|exact Ht].
Defined.

(** ** The output directory *)

Section Loop.
Context {A : Type} (body : A -> M unit).
Context (file : A -> string) (outcome : A -> result Page).

Local Abbreviation loop_writes := (writes_file body file outcome).

Lemma writes_file_cons x l :
  loop_writes (x :: l) -> loop_writes l.
Proof. intros H y fs Hy. apply H, elem_of_cons. by right. Qed.

Lemma for_each_cons x l fs :
  for_each (x :: l) body fs
  = match body x fs with
    | (Ok _, fs') => for_each l body fs'
    | (Raise e, fs') => (Raise e, fs')
    end.
Proof. reflexivity. Qed.

(** The loop leaves alone every path that is not the file of an element. *)
Lemma for_each_frame l fs r fs' path :
  loop_writes l ->
  for_each l body fs = (r, fs') ->
  (forall x, x ∈ l -> file x <> path) ->
  fs' !! path = fs !! path.
Proof.
  revert fs. induction l as [|x l IH]; intros fs Hw Hrun Hne.
  - by injection Hrun as <- <-.
  - rewrite for_each_cons, (Hw x fs) in Hrun by (apply elem_of_cons; by left).
    destruct (outcome x) as [page|e].
    + rewrite (IH _ (writes_file_cons _ _ Hw) Hrun).
      * apply lookup_insert_ne, Hne, elem_of_cons. by left.
      * intros y Hy. apply Hne, elem_of_cons. by right.
    + by injection Hrun as <- <-.
Qed.

(** After a loop that completes, the file of an element holds what the last
    element of that file wrote. *)
Lemma for_each_last_write l fs fs' x :
  loop_writes l ->
  for_each l body fs = (Ok tt, fs') ->
  x ∈ l ->
  exists winner page,
    last (filter (fun q => file q = file x) l) = Some winner
    /\ outcome winner = Ok page
    /\ fs' !! file x = Some page.
Proof.
  revert fs x. induction l as [|y l IH]; intros fs x Hw Hrun Hx.
  { by apply elem_of_nil in Hx. }
  rewrite for_each_cons, (Hw y fs) in Hrun by (apply elem_of_cons; by left).
  destruct (outcome y) as [page|e] eqn:Hy; [|done].
  pose proof (writes_file_cons _ _ Hw) as Hw'.
  destruct (filter (fun q => file q = file x) l) as [|z zs] eqn:Hf.
  - assert (Hyx : file y = file x).
    { apply elem_of_cons in Hx as [->|Hx]; [done|].
      assert (Hin : x ∈ filter (fun q => file q = file x) l)
        by (by apply list_elem_of_filter).
      rewrite Hf in Hin. by apply elem_of_nil in Hin. }
    exists y, page. rewrite filter_cons, Hf.
    destruct (decide (file y = file x)); [|done]. split_and!; auto.
    rewrite (for_each_frame _ _ _ _ _ Hw' Hrun).
    + rewrite <- Hyx. apply lookup_insert_eq.
    + intros q Hq Hqx.
      assert (Hin : q ∈ filter (fun q => file q = file x) l)
        by (by apply list_elem_of_filter).
      rewrite Hf in Hin. by apply elem_of_nil in Hin.
  - assert (Hz : z ∈ filter (fun q => file q = file x) l)
      by (rewrite Hf; apply elem_of_cons; by left).
    apply list_elem_of_filter in Hz as [Hzx Hz].
    destruct (IH _ _ Hw' Hrun Hz) as (winner & page' & Hlast & Hout & Hlook).
    exists winner, page'. rewrite <- Hzx. split_and!; auto.
    rewrite filter_cons.
    destruct (decide (file y = file z)); [|done].
    destruct (filter (fun q => file q = file z) l) eqn:E; [done|].
    exact Hlast.
Qed.

(** What a completed loop leaves at a path was there before or was written
    by an element. *)
Lemma for_each_lookup_inv l fs fs' path page :
  loop_writes l ->
  for_each l body fs = (Ok tt, fs') ->
  fs' !! path = Some page ->
  fs !! path = Some page
  \/ exists x, x ∈ l /\ file x = path /\ outcome x = Ok page.
Proof.
  revert fs. induction l as [|y l IH]; intros fs Hw Hrun Hlook.
  { injection Hrun as <-. by left. }
  rewrite for_each_cons, (Hw y fs) in Hrun by (apply elem_of_cons; by left).
  destruct (outcome y) as [page'|e] eqn:Hy; [|done].
  destruct (IH _ (writes_file_cons _ _ Hw) Hrun Hlook)
    as [Hl|(x & Hx & Hfx & Hox)].
  - rewrite lookup_insert in Hl. destruct (decide (file y = path)).
    + right. exists y. injection Hl as <-. split_and!; auto.
      apply elem_of_cons. by left.
    + by left.
  - right. exists x. split_and!; auto. apply elem_of_cons. by right.
Qed.

(** A loop whose elements all have a page completes. *)
Lemma for_each_total l fs :
  loop_writes l ->
  (forall x, x ∈ l -> exists page, outcome x = Ok page) ->
  exists fs', for_each l body fs = (Ok tt, fs').
Proof.
  revert fs. induction l as [|y l IH]; intros fs Hw Hall.
  { by eexists. }
  rewrite for_each_cons, (Hw y fs) by (apply elem_of_cons; by left).
  destruct (Hall y) as [page ->]; [apply elem_of_cons; by left|].
  apply IH; [by eapply writes_file_cons|].
  intros x Hx. apply Hall, elem_of_cons. by right.
Qed.

End Loop.

(** ** The run *)

Lemma html_suffix_inj s1 s2 : s1 +:+ ".html" = s2 +:+ ".html" -> s1 = s2.
Proof.
  intros H. apply (f_equal list_ascii_of_string) in H.
  rewrite !list_ascii_of_string_app in H. apply app_inv_tail in H.
  apply (f_equal string_of_list_ascii) in H.
  by rewrite !string_of_list_ascii_of_string in H.
Qed.

Lemma player_file_inj a b :
  player_file a = player_file b <-> player_slug a = player_slug b.
Proof.
  unfold player_file. split; [|by intros ->].
  intros H. simpl in H. injection H as H. by apply html_suffix_inj.
Qed.

Lemma team_file_inj a b :
  team_file a = team_file b
  <-> team_slug (t_team_id a) (t_season a) = team_slug (t_team_id b) (t_season b).
Proof.
  unfold team_file. split; [|by intros ->].
  intros H. simpl in H. injection H as H. by apply html_suffix_inj.
Qed.

Lemma player_page_file player_data path page :
  player_page player_data = Ok (path, page) ->
  path = player_file (pd_player_name player_data)
  /\ exists teams,
       sorted_teams player_data = Ok teams
       /\ pp_cards page = imap (fun i t => team_card (S i) t) teams.
Proof.
  unfold player_page. destruct (sorted_teams _) as [teams|]; [|done].
  simpl. intros [= <- <-]. split; [done|]. by exists teams.
Qed.

Lemma player_body_writes df l :
  writes_file (player_body df) player_file (player_outcome df) l.
Proof.
  intros name fs _.
  unfold player_body, player_outcome, generate_player_page, bind, lift.
  destruct (player_page _) as [[path page]|e] eqn:E; simpl; [|done].
  apply player_page_file in E as [-> _]. done.
Qed.

Lemma get_team_data_listed df t :
  t ∈ get_unique_teams df ->
  exists team_data,
    get_team_data df (t_team_id t) (t_season t) = Some team_data
    /\ td_team_id team_data = t_team_id t
    /\ td_season team_data = t_season t.
Proof.
  unfold get_unique_teams.
  rewrite elem_of_sorted, elem_of_drop_duplicates, list_elem_of_fmap.
  intros (r & -> & Hr). simpl. unfold get_team_data.
  destruct (filter _ df) as [|first rest] eqn:E; [|by eexists].
  assert (H : r ∈ filter (fun r0 => team_id r0 = team_id r
                                    /\ season r0 = season r) df)
    by (by apply list_elem_of_filter).
  rewrite E in H. by apply elem_of_nil in H.
Qed.

Lemma team_body_writes df :
  writes_file (team_body df) team_file (team_outcome df) (get_unique_teams df).
Proof.
  intros t fs Ht. unfold team_body, team_outcome.
  destruct (get_team_data_listed df t Ht) as (td & -> & Hid & Hs).
  unfold generate_team_page, write_file, team_page, team_file, team_slug.
  simpl. by rewrite Hid, Hs.
Qed.

Lemma main_steps csv_files df fs0 :
  read_all_csvs csv_files = Ok df ->
  main csv_files fs0
  = match for_each (get_unique_players df) (player_body df)
                   (<["index.html" := home_page df]> fs0) with
    | (Ok _, fs) => for_each (get_unique_teams df) (team_body df) fs
    | (Raise e, fs) => (Raise e, fs)
    end.
Proof. intros H. unfold main, bind, lift. rewrite H. reflexivity. Qed.

Lemma player_file_not_team name t : team_file t <> player_file name.
Proof. done. Qed.

(** C1, counterexample. Two players whose names sanitize to one slug, and
    two team instances whose seasons do: the run completes without an
    exception, and each shared file holds the page of the entity written
    last. *)
Lemma slug_collision_counterexample :
  exists df fs player team,
    read_all_csvs collision_files = Ok df
    /\ get_unique_players df = ["A/B Smith"; "A\B Smith"; "Kim Fox"; "Lou Ray"]
    /\ player_slug "A/B Smith" = player_slug "A\B Smith"
    /\ team_slug 5 "Fall League" = team_slug 5 "Fall/League"
    /\ main collision_files ∅ = (Ok tt, fs)
    /\ fs !! "players/A_B_Smith.html" = Some (PlayerP player)
    /\ pp_player_name player = "A\B Smith"
    /\ fs !! "teams/5_Fall_League.html" = Some (TeamP team)
    /\ tp_season team = "Fall/League"
    /\ size fs = 6.
Proof.
  eexists. exists (snd (main collision_files ∅)). do 2 eexists.
  split; [reflexivity|]. split; [reflexivity|]. split; [reflexivity|].
  split; [reflexivity|].
  split; [vm_compute; reflexivity|].
  split; [vm_compute; reflexivity|].
  split; [reflexivity|].
  split; [vm_compute; reflexivity|].
  split; [reflexivity|].
  vm_compute; reflexivity.
Qed.

(** C1, amended. The run has no check for colliding slugs. Whenever the
    files can be read and the memberships of every player can be sorted, the
    run completes; the file of a player's slug then holds the page of the
    last player of the sorted player list with that slug, and the file of a
    team's slug the page of the last team of the team list with that slug:
    the pages written earlier under the slug are replaced. *)
Theorem last_write_wins
  (csv_files : list (option (list Row))) (df : list Row)
  (fs0 : gmap string Page) :
  read_all_csvs csv_files = Ok df ->
  (forall name, name ∈ get_unique_players df ->
     exists teams, sorted_teams (get_player_data df name) = Ok teams) ->
  exists fs,
    main csv_files fs0 = (Ok tt, fs)
    /\ (forall name, name ∈ get_unique_players df ->
          exists winner page,
            last (filter (fun q => player_slug q = player_slug name)
                         (get_unique_players df)) = Some winner
            /\ player_page (get_player_data df winner)
               = Ok (player_file name, page)
            /\ fs !! player_file name = Some (PlayerP page))
    /\ (forall t, t ∈ get_unique_teams df ->
          exists winner team_data,
            last (filter (fun q => team_slug (t_team_id q) (t_season q)
                                   = team_slug (t_team_id t) (t_season t))
                         (get_unique_teams df)) = Some winner
            /\ get_team_data df (t_team_id winner) (t_season winner)
               = Some team_data
            /\ fs !! team_file t = Some (TeamP (snd (team_page team_data)))).
Proof.
  intros Hread Hsort. rewrite (main_steps _ _ _ Hread).
  destruct (for_each_total (player_body df) player_file (player_outcome df)
              (get_unique_players df) (<["index.html" := home_page df]> fs0)
              (player_body_writes df _)) as [fs1 Hplayers].
  { intros name Hname. destruct (Hsort name Hname) as [teams Ht].
    unfold player_outcome, player_page. rewrite Ht. simpl. eauto. }
  rewrite Hplayers.
  destruct (for_each_total (team_body df) team_file (team_outcome df)
              (get_unique_teams df) fs1 (team_body_writes df)) as [fs Hteams].
  { intros t Ht. unfold team_outcome.
    destruct (get_team_data_listed df t Ht) as (td & -> & _). eauto. }
  exists fs. split_and!; [done| |].
  - intros name Hname.
    destruct (for_each_last_write _ _ _ _ _ _ name
                (player_body_writes df _) Hplayers Hname)
      as (winner & page & Hlast & Hout & Hlook).
    unfold player_outcome in Hout.
    destruct (player_page (get_player_data df winner))
      as [[path ppage]|] eqn:Hpage; [|done].
    simpl in Hout. injection Hout as <-.
    assert (Hfile : player_file winner = player_file name).
    { apply last_Some_elem_of, list_elem_of_filter in Hlast as [? _]. done. }
    exists winner, ppage. split_and!.
    + rewrite <- Hlast. f_equal. apply list_filter_iff. intros q.
      symmetry. apply player_file_inj.
    + destruct (player_page_file _ _ _ Hpage) as [Hpath _].
      change (pd_player_name (get_player_data df winner)) with winner in Hpath.
      by rewrite Hpage, Hpath, Hfile.
    + rewrite (for_each_frame _ _ _ _ _ _ _ _ (team_body_writes df) Hteams);
        [done|]. intros t _. apply player_file_not_team.
  - intros t Ht.
    destruct (for_each_last_write _ _ _ _ _ _ t
                (team_body_writes df) Hteams Ht)
      as (winner & page & Hlast & Hout & Hlook).
    unfold team_outcome in Hout.
    destruct (get_team_data df (t_team_id winner) (t_season winner))
      as [td|] eqn:Htd; [|done].
    injection Hout as <-. exists winner, td. split_and!; auto.
    rewrite <- Hlast. f_equal. apply list_filter_iff. intros q.
    symmetry. apply team_file_inj.
Qed.

Lemma last_write_wins_witness :
  exists df fs,
    read_all_csvs collision_files = Ok df
    /\ main collision_files ∅ = (Ok tt, fs)
    /\ exists winner page,
         last (filter (fun q => player_slug q = player_slug "A/B Smith")
                      (get_unique_players df)) = Some winner
         /\ player_page (get_player_data df winner)
            = Ok (player_file "A/B Smith", page)
         /\ fs !! player_file "A/B Smith" = Some (PlayerP page).
Proof.
  eexists.
  match goal with |- exists fs, read_all_csvs ?f = Ok ?d /\ _ =>
    destruct (last_write_wins f d ∅) as (fs & Hmain & Hplayers & _)
  end.
  - reflexivity.
  - intros name Hname. vm_compute in Hname.
    repeat (apply elem_of_cons in Hname as [->|Hname];
            [eexists; vm_compute; reflexivity|]).
    by apply elem_of_nil in Hname.
  - exists fs. split; [reflexivity|]. split; [exact Hmain|].
    apply Hplayers. vm_compute. apply elem_of_cons. by left.
Defined.

(** ** Links to player pages *)

(** The four places that name a player's file sanitize the name in the same
    way. *)
Lemma link_sites_agree name :
  href (home_player_link name) = player_file name
  /\ href (teammate_link name) = "../" +:+ player_file name
  /\ href (roster_link name) = "../" +:+ player_file name
  /\ forall teams path page,
       player_page (mkPlayerData name teams) = Ok (path, page) ->
       path = player_file name.
Proof.
  split_and!; try reflexivity.
  intros teams path page H. by apply player_page_file in H as [-> _].
Qed.

Lemma elem_of_get_unique_players df name :
  name ∈ get_unique_players df <-> exists r, r ∈ df /\ player_name r = name.
Proof.
  unfold get_unique_players.
  rewrite elem_of_sorted, elem_of_drop_duplicates, list_elem_of_fmap.
  split; intros (r & ? & ?); eauto.
Qed.

Lemma teammates_are_players df name row mate :
  mate ∈ teammates_of df name row -> mate ∈ get_unique_players df.
Proof.
  unfold teammates_of. rewrite elem_of_sorted, list_elem_of_fmap.
  intros (r & -> & Hr). apply list_elem_of_filter in Hr as [_ Hr].
  apply elem_of_get_unique_players. eauto.
Qed.

Lemma roster_are_players df tid ssn team_data name :
  get_team_data df tid ssn = Some team_data ->
  name ∈ td_players team_data -> name ∈ get_unique_players df.
Proof.
  unfold get_team_data. destruct (filter _ df) as [|first rest] eqn:E; [done|].
  intros H. apply (inj Some) in H. subst team_data. unfold td_players.
  rewrite elem_of_sorted, elem_of_drop_duplicates, list_elem_of_fmap.
  intros (r & -> & Hr). rewrite <- E in Hr.
  apply list_elem_of_filter in Hr as [_ Hr].
  apply elem_of_get_unique_players. eauto.
Qed.

(** Every link to a player that a written page holds names a player of the
    player list, by that player's file. *)
Lemma written_links_name_players df page link :
  page = home_page df
  \/ (exists name, name ∈ get_unique_players df
                   /\ player_outcome df name = Ok page)
  \/ (exists t, t ∈ get_unique_teams df /\ team_outcome df t = Ok page) ->
  link ∈ player_links page ->
  exists name,
    name ∈ get_unique_players df
    /\ href link = to_root page +:+ player_file name.
Proof.
  intros [->|[(name & Hname & Hout)|(t & Ht & Hout)]] Hlink.
  - simpl in Hlink. apply list_elem_of_fmap in Hlink as (name & -> & Hname).
    by exists name.
  - unfold player_outcome in Hout.
    destruct (player_page _) as [[path ppage]|] eqn:Hpage; [|done].
    simpl in Hout. injection Hout as <-.
    apply player_page_file in Hpage as (_ & teams & Hsort & Hcards).
    simpl in Hlink. rewrite Hcards in Hlink.
    apply list_elem_of_In, in_concat in Hlink as (links & Hlinks & Hlink).
    apply list_elem_of_In, list_elem_of_fmap in Hlinks as (card & -> & Hcard).
    apply list_elem_of_lookup in Hcard as [i Hi].
    rewrite list_lookup_imap in Hi.
    destruct (teams !! i) as [m|] eqn:Hm; [|done]. injection Hi as <-.
    apply list_elem_of_In in Hlink. simpl in Hlink.
    apply list_elem_of_fmap in Hlink as (mate & -> & Hmate).
    exists mate. split; [|done].
    apply list_elem_of_lookup_2 in Hm. apply sorted_r_perm in Hsort.
    rewrite Hsort in Hm. simpl in Hm.
    apply list_elem_of_fmap in Hm as (row & -> & _).
    by eapply teammates_are_players.
  - unfold team_outcome in Hout.
    destruct (get_team_data _ _ _) as [td|] eqn:Htd; [|done].
    injection Hout as <-. simpl in Hlink.
    apply list_elem_of_fmap in Hlink as (name & -> & Hname).
    exists name. split; [|done]. by eapply roster_are_players.
Qed.

(** In a run that completes on an empty output directory, every link to a
    player leads to a file of the run. *)
Lemma completed_run_links csv_files fs path page link :
  main csv_files ∅ = (Ok tt, fs) ->
  fs !! path = Some page ->
  link ∈ player_links page ->
  exists name,
    href link = to_root page +:+ player_file name
    /\ is_Some (fs !! player_file name).
Proof.
  intros Hmain Hpage Hlink.
  destruct (read_all_csvs csv_files) as [df|e] eqn:Hread;
    [|by unfold main, bind, lift in Hmain; rewrite Hread in Hmain].
  rewrite (main_steps _ _ _ Hread) in Hmain.
  destruct (for_each (get_unique_players df) _ _) as [[[]|e] fs1] eqn:Hplayers;
    [|done].
  assert (Hfrom : page = home_page df
    \/ (exists name, name ∈ get_unique_players df
                     /\ player_outcome df name = Ok page)
    \/ (exists t, t ∈ get_unique_teams df /\ team_outcome df t = Ok page)).
  { destruct (for_each_lookup_inv _ _ _ _ _ _ _ _
                (team_body_writes df) Hmain Hpage) as [H1|(t & ? & _ & ?)];
      [|right; right; eauto].
    destruct (for_each_lookup_inv _ _ _ _ _ _ _ _
                (player_body_writes df _) Hplayers H1) as [H0|(n & ? & _ & ?)];
      [|right; left; eauto].
    left. rewrite lookup_insert in H0.
    destruct (decide ("index.html" = path)); [congruence|].
    by rewrite lookup_empty in H0. }
  destruct (written_links_name_players df page link Hfrom Hlink)
    as (name & Hname & Hhref).
  exists name. split; [done|].
  destruct (for_each_last_write _ _ _ _ _ _ name
              (player_body_writes df _) Hplayers Hname)
    as (_ & page' & _ & _ & Hlook).
  rewrite (for_each_frame _ _ _ _ _ _ _ _ (team_body_writes df) Hmain);
    [by eexists|]. intros t _. apply player_file_not_team.
Qed.

(** C10 (the code differs). The links of all pages name a player's file as
    [generate_player_page] does, and in a run that completes every link
    leads to a written file (the two lemmas above). But [main] writes the
    home page before the player pages, and [generate_player_page] raises
    [TypeError] when it sorts a season with a year against one without: the
    run stops, and the home page links to a player file that was not
    written, for a single player with a slug that is not empty. *)
Theorem home_link_without_page :
  exists df fs home,
    read_all_csvs mixed_season_files = Ok df
    /\ get_unique_players df = ["Alex Lee"]
    /\ player_slug "Alex Lee" = "Alex_Lee"
    /\ season_key <$> (m_season <$> pd_teams (get_player_data df "Alex Lee"))
       = [KInt 2023; KStr "Fall League"]
    /\ player_page (get_player_data df "Alex Lee") = Raise TypeError
    /\ main mixed_season_files ∅ = (Raise TypeError, fs)
    /\ fs !! "index.html" = Some (HomeP home)
    /\ hp_players home = [mkLink "players/Alex_Lee.html" "Alex Lee"]
    /\ fs !! "players/Alex_Lee.html" = None.
Proof. do 3 eexists. split_and!; vm_compute; reflexivity. Qed.

(** ** The scenario of the specification *)

Example end_to_end_scenario :
  let csv_files :=
    [ Some [ mkRow 1 "23/24 Season" "Lightning" "Alex Lee" "2025-01-05T10:00:00";
             mkRow 1 "23/24 Season" "Lightning" "Sam Roy" "2025-01-05T10:00:00";
             mkRow 2 "2024/2025" "Thunder" "Alex Lee" "2025-01-05T10:00:00" ] ] in
  exists df page,
    read_all_csvs csv_files = Ok df
    /\ get_unique_players df = ["Alex Lee"; "Sam Roy"]
    /\ get_unique_teams df
       = [ mkTeam 1 "Lightning" "2023/2024"; mkTeam 2 "Thunder" "2024/2025" ]
    /\ sorted_teams (get_player_data df "Alex Lee")
       = Ok [ mkMembership 1 "2023/2024" "Lightning" ["Sam Roy"];
              mkMembership 2 "2024/2025" "Thunder" [] ]
    /\ player_page (get_player_data df "Alex Lee")
       = Ok ("players/Alex_Lee.html", page)
    /\ pp_teams_played page = 2
    /\ pp_unique_teammates page = 1.
Proof. intros csv_files. do 2 eexists. split_and!; vm_compute; reflexivity. Qed.

Example season_key_examples :
  season_key "2023/2024" = KInt 2023
  /\ season_key " 2023 /24" = KInt 2023
  /\ season_key "Fall League" = KStr "Fall League"
  /\ season_key "nan" = KStr "nan"
  /\ key_lt (KInt 2023) (KStr "Fall League") = Raise TypeError.
Proof. split_and!; reflexivity. Qed.

(** * Further properties of the generator *)

(** ** Reading the files *)

(** X1. [read_all_csvs] raises [FileNotFoundError] exactly when no file is
    found, [ValueError] exactly when files are found and none loads, and
    returns a frame exactly when some file loads, be it without rows. *)
Theorem read_all_csvs_outcome (csv_files : list (option (list Row))) :
  (read_all_csvs csv_files = Raise FileNotFoundError <-> csv_files = [])
  /\ (read_all_csvs csv_files = Raise ValueError
      <-> csv_files <> [] /\ Forall (fun file => file = None) csv_files)
  /\ ((exists df, read_all_csvs csv_files = Ok df)
      <-> exists rows, Some rows ∈ csv_files)
  /\ read_all_csvs csv_files <> Raise TypeError.
Proof.
  assert (Hnil : forall files,
            omap load_csv files = [] <-> Forall (fun file => file = None) files).
  { induction files as [|[rows|] files IH]; simpl.
    - split; [constructor|done].
    - split; [done|]. intros H. by apply Forall_cons in H as [? _].
    - rewrite IH. split; [by constructor|].
      intros H. by apply Forall_cons in H as [_ ?]. }
  unfold read_all_csvs. destruct csv_files as [|file files].
  { split_and!; try done.
    - split; [done|]. by intros [? _].
    - split; [by intros [? ?]|]. intros [rows H]. by apply elem_of_nil in H. }
  destruct (omap load_csv (file :: files)) as [|d ds] eqn:E.
  - apply Hnil in E. split_and!; try done.
    split; [by intros [? ?]|]. intros [rows H].
    rewrite Forall_forall in E. by apply E in H.
  - assert (Hsome : exists rows, Some rows ∈ file :: files).
    { destruct (decide (Forall (fun f => f = None) (file :: files)))
        as [Hall|Hnot]; [apply Hnil in Hall; congruence|].
      apply not_Forall_Exists in Hnot; [|solve_decision].
      apply Exists_exists in Hnot as ([rows|] & Hin & Hne);
        [|by destruct Hne].
      by exists rows. }
    split_and!; try done.
    + split; [done|]. intros [_ Hall]. apply Hnil in Hall. congruence.
    + split; [done|]. intros _. by eexists.
Qed.

Lemma normalize_row_fixed r : normalize_row (normalize_row r) = normalize_row r.
Proof.
  unfold normalize_row. simpl. f_equal.
  generalize (season r) as x. intros x. unfold normalize_season at 2 3.
  destruct (Re.search (list_ascii_of_string x)) as [[y1 y2]|] eqn:E.
  - apply search_Some in E as (pre & sep & post & (_ & T1 & _ & T2) & _).
    destruct (expand_year_shape y1 T1) as [D1 L1].
    destruct (expand_year_shape y2 T2) as [D2 L2].
    unfold normalize_season.
    rewrite !list_ascii_of_string_app, !list_ascii_of_string_of_list_ascii.
    simpl. rewrite (search_canonical _ _ D1 L1 D2 L2).
    rewrite (expand_year_other (expand_year y1)) by lia.
    by rewrite (expand_year_other (expand_year y2)) by lia.
  - unfold normalize_season. by rewrite E.
Qed.

(** X2. The frame [read_all_csvs] returns has no two equal rows, holds
    exactly the rows of the files that loaded, with their seasons
    normalized, and every season in it is one that normalization leaves as
    it is. *)
Theorem read_all_csvs_frame
  (csv_files : list (option (list Row))) (df : list Row) :
  read_all_csvs csv_files = Ok df ->
  NoDup df
  /\ (forall r, r ∈ df
                <-> exists raw, raw ∈ raw_rows csv_files
                                /\ r = normalize_row raw)
  /\ (forall r, r ∈ df -> normalize_season (season r) = season r).
Proof.
  intros H. apply read_all_csvs_Ok in H as ->.
  assert (Hin : forall r, r ∈ drop_duplicates (loaded_rows csv_files)
                <-> exists raw, raw ∈ raw_rows csv_files
                                /\ r = normalize_row raw).
  { intros r.
    rewrite elem_of_drop_duplicates, loaded_rows_raw, list_elem_of_fmap.
    split; intros (raw & ? & ?); eauto. }
  split_and!; [apply NoDup_drop_duplicates|exact Hin|].
  intros r Hr. apply Hin in Hr as (raw & _ & ->).
  change (season (normalize_row (normalize_row raw))
          = season (normalize_row raw)).
  by rewrite normalize_row_fixed.
Qed.

Lemma read_all_csvs_frame_witness :
  exists df,
    read_all_csvs recrawled_files = Ok df
    /\ NoDup df
    /\ forall r, r ∈ df -> normalize_season (season r) = season r.
Proof.
  eexists. split; [reflexivity|].
  match goal with |- NoDup ?d /\ _ =>
    destruct (read_all_csvs_frame recrawled_files d eq_refl) as (Hn & _ & Hs)
  end.
  split; [exact Hn|exact Hs].
Defined.

(** X3. A file that fails to load is skipped: as long as another file
    loads, the frame is the one of the run without the failing file. *)
Theorem unreadable_file_skipped
  (before after : list (option (list Row))) :
  (exists rows, Some rows ∈ before ++ after) ->
  read_all_csvs (before ++ None :: after) = read_all_csvs (before ++ after).
Proof.
  intros [rows Hrows]. unfold read_all_csvs.
  assert (Homap : omap load_csv (before ++ None :: after)
                  = omap load_csv (before ++ after))
    by (by rewrite !omap_app).
  rewrite Homap. destruct (before ++ after) eqn:E.
  - by apply elem_of_nil in Hrows.
  - by destruct before.
Qed.

Lemma unreadable_file_skipped_witness :
  read_all_csvs ([] ++ None :: two_season_files)
  = read_all_csvs ([] ++ two_season_files).
Proof.
  apply unreadable_file_skipped. eexists. apply elem_of_cons. by left.
Defined.

(** ** Players, rosters and teammates *)

Lemma string_ltb_iff a b : String.ltb a b = true <-> String.le a b /\ a <> b.
Proof.
  split.
  - intros H. pose proof (string_ltb_asym _ _ H) as H'. split.
    + by apply string_ltb_le.
    + intros ->. congruence.
  - intros [Hle Hne]. destruct (String.ltb a b) eqn:E; [done|].
    apply string_ltb_le in E. destruct Hne. by apply (anti_symm String.le).
Qed.

Lemma Sorted_strings_strict l :
  NoDup l -> Sorted String.le l ->
  Sorted (fun a b => String.ltb a b = true) l.
Proof.
  intros Hnd Hs. induction Hs as [|a l Hs IH Hhd]; constructor.
  - apply IH. by apply NoDup_cons in Hnd as [_ ?].
  - destruct Hhd as [|b l Hab]; constructor. apply string_ltb_iff.
    split; [done|]. intros ->. apply NoDup_cons in Hnd as [Hnd _].
    apply Hnd, elem_of_cons. by left.
Qed.

Lemma sorted_unique_strict l :
  Sorted (fun a b => String.ltb a b = true)
         (sorted String.ltb id (drop_duplicates l)).
Proof.
  apply Sorted_strings_strict; [|apply Sorted_strings].
  rewrite sorted_perm. apply NoDup_drop_duplicates.
Qed.

(** X4. The player list is strictly ascending in code-point order, so it
    has no name twice, and it holds exactly the names that occur in the
    frame. *)
Theorem get_unique_players_spec (df : list Row) :
  Sorted (fun a b => String.ltb a b = true) (get_unique_players df)
  /\ NoDup (get_unique_players df)
  /\ forall name,
       name ∈ get_unique_players df
       <-> exists r, r ∈ df /\ player_name r = name.
Proof.
  split_and!.
  - apply sorted_unique_strict.
  - unfold get_unique_players. rewrite sorted_perm.
    apply NoDup_drop_duplicates.
  - apply elem_of_get_unique_players.
Qed.

(** X5. [get_team_data] returns [None] exactly when no row carries the
    team id and season. Otherwise the roster is strictly ascending, is not
    empty, and holds exactly the names of the rows of that team and season;
    the team page counts them. *)
Theorem get_team_data_spec (df : list Row) (tid : Z) (ssn : string) :
  (get_team_data df tid ssn = None
   <-> forall r, r ∈ df -> ~ (team_id r = tid /\ season r = ssn))
  /\ forall team_data,
       get_team_data df tid ssn = Some team_data ->
       td_team_id team_data = tid /\ td_season team_data = ssn
       /\ td_players team_data <> []
       /\ Sorted (fun a b => String.ltb a b = true) (td_players team_data)
       /\ (forall name,
             name ∈ td_players team_data
             <-> exists r, r ∈ df /\ team_id r = tid /\ season r = ssn
                           /\ player_name r = name)
       /\ tp_total_players (snd (team_page team_data))
          = length (td_players team_data).
Proof.
  unfold get_team_data.
  destruct (filter (fun r => team_id r = tid /\ season r = ssn) df)
    as [|first rest] eqn:E.
  - split; [|done]. split; [|done]. intros _ r Hr Hkey.
    assert (H : r ∈ filter (fun r => team_id r = tid /\ season r = ssn) df)
      by (by apply list_elem_of_filter).
    rewrite E in H. by apply elem_of_nil in H.
  - split.
    { split; [done|]. intros H. exfalso.
      assert (Hf : first ∈ filter (fun r => team_id r = tid /\ season r = ssn) df)
        by (rewrite E; apply elem_of_cons; by left).
      apply list_elem_of_filter in Hf as [Hkey Hin]. by apply (H first). }
    intros team_data H. apply (inj Some) in H. subst team_data.
    unfold td_team_id, td_season, td_players, team_page, snd, tp_total_players.
    rewrite <- E.
    assert (Hin : forall name,
      name ∈ sorted String.ltb id
               (drop_duplicates
                  (map player_name
                     (filter (fun r => team_id r = tid /\ season r = ssn) df)))
      <-> exists r, r ∈ df /\ team_id r = tid /\ season r = ssn
                    /\ player_name r = name).
    { intros name.
      rewrite elem_of_sorted, elem_of_drop_duplicates, list_elem_of_fmap.
      split.
      - intros (r & -> & Hr). apply list_elem_of_filter in Hr as [[? ?] ?].
        by exists r.
      - intros (r & ? & ? & ? & <-). exists r. split; [done|].
        by apply list_elem_of_filter. }
    split_and!; auto.
    + intros Hnil. assert (Hf : player_name first ∈ @nil string); [|by apply elem_of_nil in Hf].
      rewrite <- Hnil. apply Hin.
      assert (Hf : first ∈ filter (fun r => team_id r = tid /\ season r = ssn) df)
        by (rewrite E; apply elem_of_cons; by left).
      apply list_elem_of_filter in Hf as [[? ?] ?]. by exists first.
    + apply sorted_unique_strict.
Qed.

Lemma get_team_data_spec_witness :
  exists df team_data,
    read_all_csvs recrawled_files = Ok df
    /\ get_team_data df 1 "2023/2024" = Some team_data
    /\ td_players team_data <> []
    /\ Sorted (fun a b => String.ltb a b = true) (td_players team_data).
Proof.
  do 2 eexists. split; [reflexivity|]. split; [reflexivity|].
  match goal with |- td_players ?td <> [] /\ _ =>
    destruct (proj2 (get_team_data_spec
                (drop_duplicates (loaded_rows recrawled_files))
                1 "2023/2024") td eq_refl)
      as (_ & _ & Hne & Hs & _)
  end.
  split; [exact Hne|exact Hs].
Defined.

Lemma teammate_iff df a b tid :
  (exists m, m ∈ pd_teams (get_player_data df a)
             /\ m_team_id m = tid /\ b ∈ m_teammates m)
  <-> a <> b
      /\ (exists r, r ∈ df /\ player_name r = a /\ team_id r = tid)
      /\ (exists r, r ∈ df /\ player_name r = b /\ team_id r = tid).
Proof.
  split.
  - intros (m & Hm & Htid & Hb). simpl in Hm.
    apply list_elem_of_fmap in Hm as (row & -> & Hrow).
    apply list_elem_of_filter in Hrow as [Hname Hrow]. simpl in Htid, Hb.
    unfold teammates_of in Hb.
    rewrite elem_of_sorted, list_elem_of_fmap in Hb.
    destruct Hb as (r & -> & Hr).
    apply list_elem_of_filter in Hr as [[Ht Hne] Hr].
    split_and!; [congruence|by exists row|exists r]. split_and!; congruence.
  - intros (Hne & (ra & Hra & Ha & Hta) & (rb & Hrb & Hb & Htb)).
    exists (mkMembership (team_id ra) (season ra) (team_name ra)
                         (teammates_of df a ra)).
    split_and!; [|done|].
    + simpl. apply list_elem_of_fmap. exists ra. split; [done|].
      by apply list_elem_of_filter.
    + simpl. unfold teammates_of.
      rewrite elem_of_sorted, list_elem_of_fmap. exists rb.
      split; [done|]. apply list_elem_of_filter. split; [|done].
      split; congruence.
Qed.

(** X6. Being a teammate is symmetric: [b] is listed among the teammates of
    a membership of [a] on a team id exactly when [a] is listed among the
    teammates of a membership of [b] on that team id, which is when the two
    are different players that both have a row with the team id. *)
Theorem teammates_symmetric (df : list Row) (a b : string) (tid : Z) :
  ((exists m, m ∈ pd_teams (get_player_data df a)
              /\ m_team_id m = tid /\ b ∈ m_teammates m)
   <-> (exists m, m ∈ pd_teams (get_player_data df b)
                  /\ m_team_id m = tid /\ a ∈ m_teammates m))
  /\ ((exists m, m ∈ pd_teams (get_player_data df a)
                 /\ m_team_id m = tid /\ b ∈ m_teammates m)
      <-> a <> b
          /\ (exists r, r ∈ df /\ player_name r = a /\ team_id r = tid)
          /\ (exists r, r ∈ df /\ player_name r = b /\ team_id r = tid)).
Proof.
  split; [|apply teammate_iff]. rewrite !teammate_iff. split.
  - intros (? & ? & ?). split_and!; auto.
  - intros (? & ? & ?). split_and!; auto.
Qed.

(** ** Slugs *)

Lemma elem_of_keep f s c :
  c ∈ chars (keep f s) <-> f c = true /\ c ∈ chars s.
Proof.
  unfold chars. induction s as [|a s IH]; simpl.
  - rewrite elem_of_nil. tauto.
  - destruct (f a) eqn:E; simpl; rewrite ?elem_of_cons, IH; split.
    + intros [->|[? ?]]; auto.
    + intros [? [->|?]]; auto.
    + intros [? ?]; auto.
    + intros [? [->|?]]; [congruence|auto].
Qed.

Lemma length_keep f s : String.length (keep f s) <= String.length s.
Proof.
  induction s as [|a s IH]; simpl; [done|]. destruct (f a); simpl; lia.
Qed.

Lemma length_replace_char old new s :
  String.length (replace_char old new s) = String.length s.
Proof. induction s as [|a s IH]; simpl; [done|]. by rewrite IH. Qed.

Lemma player_slug_cons c s :
  player_slug (String c s)
  = if safe_char (underscored c)
    then String (underscored c) (player_slug s)
    else player_slug s.
Proof. reflexivity. Qed.

Lemma underscored_spec c :
  underscored c
  = if decide (c = " "%char \/ c = "/"%char \/ c = "\"%char)
    then "_"%char else c.
Proof.
  unfold underscored. destruct (Ascii.eqb_spec c " ") as [->|H1]; [done|].
  destruct (Ascii.eqb_spec c "/") as [->|H2]; [done|].
  destruct (Ascii.eqb_spec c "\") as [->|H3]; [done|].
  destruct (decide _) as [[? | [? | ?]] | ?]; done.
Qed.

Lemma safe_underscored c :
  safe_char c = true -> underscored c = c.
Proof.
  intros H. rewrite underscored_spec.
  destruct (decide _) as [[-> | [-> | ->]] | ?]; done.
Qed.

(** X7. A slug holds only letters, digits, dots, underscores and hyphens:
    neither a player slug nor a team slug holds a slash, a backslash or a
    space, so the page of an entity is a file directly in its directory; a
    player slug is never longer than the name. *)
Theorem slugs_are_file_names (name : string) (tid : Z) (ssn : string) :
  (forall c, c ∈ chars (player_slug name) -> safe_char c = true)
  /\ (forall c, c ∈ chars (team_slug tid ssn) -> safe_char c = true)
  /\ ("/"%char ∉ chars (player_slug name))
  /\ ("\"%char ∉ chars (player_slug name))
  /\ (" "%char ∉ chars (player_slug name))
  /\ ("/"%char ∉ chars (team_slug tid ssn))
  /\ ("\"%char ∉ chars (team_slug tid ssn))
  /\ String.length (player_slug name) <= String.length name.
Proof.
  assert (Hp : forall c, c ∈ chars (player_slug name) -> safe_char c = true).
  { intros c Hc. by apply elem_of_keep in Hc as [? _]. }
  assert (Ht : forall c, c ∈ chars (team_slug tid ssn) -> safe_char c = true).
  { intros c Hc. by apply elem_of_keep in Hc as [? _]. }
  split_and!; auto; try (intros H; by (apply Hp in H || apply Ht in H)).
  unfold player_slug. etransitivity; [apply length_keep|].
  by rewrite !length_replace_char.
Qed.

Lemma player_slug_safe name :
  (forall c, c ∈ chars name -> safe_char c = true) -> player_slug name = name.
Proof.
  unfold chars. induction name as [|c s IH]; intros H; [done|].
  rewrite player_slug_cons.
  assert (Hc : safe_char c = true) by (apply H, elem_of_cons; by left).
  rewrite (safe_underscored c Hc), Hc, IH; [done|].
  intros d Hd. apply H, elem_of_cons. by right.
Qed.

(** X8. A name made of letters, digits, dots, underscores and hyphens is
    its own slug, and so is every slug: sanitizing twice is sanitizing
    once. *)
Theorem player_slug_stable (name : string) :
  ((forall c, c ∈ chars name -> safe_char c = true) ->
   player_slug name = name)
  /\ player_slug (player_slug name) = player_slug name.
Proof.
  split; [apply player_slug_safe|]. apply player_slug_safe.
  intros c Hc. by apply elem_of_keep in Hc as [? _].
Qed.

Lemma player_slug_stable_witness : player_slug "J.-P_Roy" = "J.-P_Roy".
Proof.
  apply (proj1 (player_slug_stable "J.-P_Roy")). intros c Hc.
  vm_compute in Hc.
  repeat (apply elem_of_cons in Hc as [->|Hc]; [reflexivity|]).
  by apply elem_of_nil in Hc.
Defined.

(** X9. The slug of a player is empty exactly when the name has no letter,
    digit, dot, underscore, hyphen, space, slash or backslash; the run does
    not reject such a name, and its page is written to [players/.html]. *)
Theorem empty_player_slug (name : string) :
  (player_slug name = ""
   <-> forall c, c ∈ chars name ->
         safe_char c = false
         /\ c <> " "%char /\ c <> "/"%char /\ c <> "\"%char)
  /\ (player_slug name = "" ->
      forall teams ordered,
        sorted_teams (mkPlayerData name teams) = Ok ordered ->
        exists written,
          player_page (mkPlayerData name teams) = Ok ("players/.html", written)).
Proof.
  split.
  - unfold chars. induction name as [|c s IH]; simpl list_ascii_of_string.
    + split; [|done]. intros _ c Hc. by apply elem_of_nil in Hc.
    + rewrite player_slug_cons, underscored_spec.
      destruct (decide _) as [Hsp|Hsp].
      * simpl. split; [done|]. intros H. exfalso.
        destruct (H c) as (? & ? & ? & ?); [apply elem_of_cons; by left|].
        destruct Hsp as [?|[?|?]]; done.
      * destruct (safe_char c) eqn:Hc.
        -- split; [done|]. intros H.
           destruct (H c) as (? & _); [apply elem_of_cons; by left|].
           congruence.
        -- rewrite IH. split.
           ++ intros H d Hd. apply elem_of_cons in Hd as [->|Hd]; [|auto].
              split_and!; [done|..]; intros ->; apply Hsp; auto.
           ++ intros H d Hd. apply H, elem_of_cons. by right.
  - intros Hslug teams ordered Hsort. unfold player_page. rewrite Hsort. simpl.
    fold (player_slug name). rewrite Hslug. by eexists.
Qed.

Lemma empty_player_slug_witness :
  exists written,
    player_page (mkPlayerData "?!" []) = Ok ("players/.html", written).
Proof.
  apply (proj2 (empty_player_slug "?!") eq_refl [] []). reflexivity.
Defined.

(** ** Outcomes of the run *)





Section LoopOutcome.
Context {A : Type} (body : A -> M unit).
Context (file : A -> string) (outcome : A -> result Page).

(** A loop that completes adds the files of its elements to the directory. *)
Lemma for_each_dom l fs fs' :
  writes_file body file outcome l ->
  for_each l body fs = (Ok tt, fs') ->
  dom fs' = dom fs ∪ list_to_set (file <$> l).
Proof.
  revert fs. induction l as [|y l IH]; intros fs Hw Hrun.
  { injection Hrun as <-. simpl. by rewrite (right_id_L ∅ (∪)). }
  rewrite (for_each_cons body), (Hw y fs) in Hrun
    by (apply elem_of_cons; by left).
  destruct (outcome y) as [page|e]; [|done].
  rewrite (IH _ (writes_file_cons _ _ _ _ _ Hw) Hrun), dom_insert_L.
  rewrite fmap_cons, list_to_set_cons, (comm_L (∪) {[file y]} (dom fs)).
  by rewrite <- (assoc_L (∪)).
Qed.



End LoopOutcome.

Lemma team_loop_completes df fs :
  exists fs', for_each (get_unique_teams df) (team_body df) fs = (Ok tt, fs').
Proof.
  apply (for_each_total _ team_file (team_outcome df));
    [apply team_body_writes|].
  intros t Ht. unfold team_outcome.
  destruct (get_team_data_listed df t Ht) as (td & -> & _). eauto.
Qed.

Lemma run_completes csv_files df fs0 :
  read_all_csvs csv_files = Ok df ->
  (forall name, name ∈ get_unique_players df ->
     exists teams, sorted_teams (get_player_data df name) = Ok teams) ->
  exists fs, main csv_files fs0 = (Ok tt, fs).
Proof.
  intros Hread Hall. rewrite (main_steps _ _ _ Hread).
  destruct (for_each_total (player_body df) player_file (player_outcome df)
              (get_unique_players df) (<["index.html" := home_page df]> fs0)
              (player_body_writes df _)) as [fs1 ->].
  { intros name Hname. unfold player_outcome, player_page.
    destruct (Hall name Hname) as [teams ->]. simpl. eauto. }
  apply team_loop_completes.
Qed.



(** X12. A run changes no path but [index.html], the files of the players
    of the frame and the files of its teams, whatever its outcome: the pages
    an earlier run wrote for players and teams that are no longer in the
    data stay in the output directory. *)
Theorem main_frame
  (csv_files : list (option (list Row))) (fs0 : gmap string Page)
  (path : string) :
  path <> "index.html" ->
  (forall df, read_all_csvs csv_files = Ok df ->
     (forall name, name ∈ get_unique_players df -> player_file name <> path)
     /\ (forall t, t ∈ get_unique_teams df -> team_file t <> path)) ->
  snd (main csv_files fs0) !! path = fs0 !! path.
Proof.
  intros Hindex Hfiles.
  destruct (read_all_csvs csv_files) as [df|e] eqn:Hread.
  - destruct (Hfiles df eq_refl) as [Hp Ht]. rewrite (main_steps _ _ _ Hread).
    destruct (for_each (get_unique_players df) _ _) as [r fs1] eqn:Hplayers.
    pose proof (for_each_frame _ _ _ _ _ _ _ path
                  (player_body_writes df _) Hplayers Hp) as H1.
    rewrite lookup_insert_ne in H1 by done.
    destruct r as [[]|e]; [|done].
    destruct (for_each (get_unique_teams df) _ fs1) as [r2 fs2] eqn:Hteams.
    simpl. rewrite <- H1.
    apply (for_each_frame _ _ _ _ _ _ _ path (team_body_writes df) Hteams Ht).
  - unfold main, bind, lift. by rewrite Hread.
Qed.

Lemma main_frame_witness :
  snd (main two_season_files {["players/Old_Name.html" := home_page []]})
    !! "players/Old_Name.html"
  = ({["players/Old_Name.html" := home_page []]} : gmap string Page)
      !! "players/Old_Name.html".
Proof.
  apply main_frame; [done|]. intros df [= <-]. split.
  - intros name Hname. vm_compute in Hname.
    repeat (apply elem_of_cons in Hname as [->|Hname]; [done|]).
    by apply elem_of_nil in Hname.
  - intros t Ht. done.
Defined.

(** ** The files of a completed run *)

Lemma size_list_to_set_le (l : list string) :
  size (list_to_set l : gset string) <= length l.
Proof.
  induction l as [|x l IH].
  - by rewrite list_to_set_nil, size_empty.
  - rewrite list_to_set_cons, size_union_alt, size_singleton. simpl.
    assert (size (list_to_set l ∖ {[x]} : gset string)
            <= size (list_to_set l : gset string)); [|lia].
    apply subseteq_size. intros y Hy. by apply elem_of_difference in Hy as [? _].
Qed.

Lemma main_completed csv_files fs0 fs :
  main csv_files fs0 = (Ok tt, fs) ->
  exists df fs1,
    read_all_csvs csv_files = Ok df
    /\ for_each (get_unique_players df) (player_body df)
                (<["index.html" := home_page df]> fs0) = (Ok tt, fs1)
    /\ for_each (get_unique_teams df) (team_body df) fs1 = (Ok tt, fs).
Proof.
  intros Hmain.
  destruct (read_all_csvs csv_files) as [df|e] eqn:Hread;
    [|by unfold main, bind, lift in Hmain; rewrite Hread in Hmain].
  rewrite (main_steps _ _ _ Hread) in Hmain.
  destruct (for_each (get_unique_players df) _ _) as [[[]|e] fs1] eqn:Hplayers;
    [|done].
  by exists df, fs1.
Qed.

(** X13. The files of a run that completes are those that were there, the
    home page, one file per player slug and one per team slug. On an empty
    output directory that is at most one file more than there are players
    and teams, and exactly that when no two players and no two teams share a
    slug. *)
Theorem completed_run_files
  (csv_files : list (option (list Row))) (fs0 fs : gmap string Page) :
  main csv_files fs0 = (Ok tt, fs) ->
  exists df,
    read_all_csvs csv_files = Ok df
    /\ dom fs = dom fs0 ∪ list_to_set (run_files df)
    /\ (fs0 = ∅ ->
        size fs <= 1 + length (get_unique_players df)
                   + length (get_unique_teams df))
    /\ (fs0 = ∅ ->
        NoDup (player_slug <$> get_unique_players df) ->
        NoDup ((fun t => team_slug (t_team_id t) (t_season t))
                 <$> get_unique_teams df) ->
        size fs = 1 + length (get_unique_players df)
                  + length (get_unique_teams df)).
Proof.
  intros Hmain.
  destruct (main_completed _ _ _ Hmain) as (df & fs1 & Hread & Hp & Ht).
  exists df. split; [done|].
  assert (Hdom : dom fs = dom fs0 ∪ list_to_set (run_files df)).
  { rewrite (for_each_dom _ _ _ _ _ _ (team_body_writes df) Ht).
    rewrite (for_each_dom _ _ _ _ _ _ (player_body_writes df _) Hp).
    rewrite dom_insert_L. unfold run_files.
    rewrite list_to_set_cons, list_to_set_app_L.
    rewrite (comm_L (∪) {["index.html"]} (dom fs0)).
    by rewrite <- !(assoc_L (∪)). }
  assert (Hlen : length (run_files df)
                 = 1 + length (get_unique_players df)
                   + length (get_unique_teams df)).
  { unfold run_files. simpl. rewrite length_app, !length_map. lia. }
  split_and!; [done| |].
  - intros ->. rewrite <- size_dom, Hdom, dom_empty_L, (left_id_L ∅ (∪)).
    rewrite <- Hlen. apply size_list_to_set_le.
  - intros -> Hnp Hnt.
    rewrite <- size_dom, Hdom, dom_empty_L, (left_id_L ∅ (∪)), <- Hlen.
    apply size_list_to_set. unfold run_files. apply NoDup_cons. split.
    + rewrite elem_of_app, !list_elem_of_fmap.
      intros [(name & ? & _)|(t & ? & _)]; done.
    + apply NoDup_app. split_and!.
      * apply (NoDup_fmap_2_strong player_file); [|by eapply NoDup_fmap_1].
        intros a b Ha Hb Hab. apply player_file_inj in Hab.
        eapply (NoDup_fmap_1 player_slug) in Hnp as Hnd.
        clear Hnd. revert Hnp Ha Hb Hab.
        generalize (get_unique_players df) as l. intros l Hnp Ha Hb Hab.
        apply list_elem_of_lookup in Ha as [i Hi].
        apply list_elem_of_lookup in Hb as [j Hj].
        assert (i = j) as ->; [|congruence].
        eapply (NoDup_lookup _ _ _ _ Hnp); rewrite list_lookup_fmap.
        -- by rewrite Hi.
        -- rewrite Hj. simpl. by rewrite Hab.
      * intros path Hpath Hpath'.
        apply list_elem_of_fmap in Hpath as (name & -> & _).
        apply list_elem_of_fmap in Hpath' as (t & Heq & _). done.
      * apply (NoDup_fmap_2_strong team_file); [|by eapply NoDup_fmap_1].
        intros a b Ha Hb Hab. apply team_file_inj in Hab.
        revert Hnt Ha Hb Hab.
        generalize (get_unique_teams df) as l. intros l Hnt Ha Hb Hab.
        apply list_elem_of_lookup in Ha as [i Hi].
        apply list_elem_of_lookup in Hb as [j Hj].
        assert (i = j) as ->; [|congruence].
        eapply (NoDup_lookup _ _ _ _ Hnt); rewrite list_lookup_fmap.
        -- by rewrite Hi.
        -- rewrite Hj. simpl. by rewrite Hab.
Qed.

Lemma completed_run_files_witness :
  exists df fs,
    read_all_csvs two_season_files = Ok df
    /\ main two_season_files ∅ = (Ok tt, fs)
    /\ get_unique_players df = ["Alex Lee"; "Sam Roy"]
    /\ length (get_unique_teams df) = 2
    /\ dom fs = dom (∅ : gmap string Page) ∪ list_to_set (run_files df)
    /\ size fs <= 1 + 2 + 2
    /\ size fs = 1 + 2 + 2.
Proof.
  set (df0 := [ mkRow 7 "2023/2024" "Thunder" "Alex Lee" "2025-01-05T10:00:00";
                mkRow 7 "2024/2025" "Thunder" "Sam Roy" "2025-01-05T10:00:00" ]).
  assert (Hread0 : read_all_csvs two_season_files = Ok df0) by reflexivity.
  destruct (run_completes two_season_files df0 ∅ Hread0) as [fs Hmain].
  { intros name Hname. vm_compute in Hname.
    apply elem_of_cons in Hname as [->|Hname];
      [eexists; vm_compute; reflexivity|].
    apply elem_of_cons in Hname as [->|Hname];
      [eexists; vm_compute; reflexivity|].
    by apply elem_of_nil in Hname. }
  destruct (completed_run_files two_season_files ∅ fs Hmain)
    as (df & Hread & Hdom & Hle & Heq).
  assert (Hdf : df = df0) by congruence.
  assert (Hp : get_unique_players df = ["Alex Lee"; "Sam Roy"])
    by (rewrite Hdf; reflexivity).
  assert (Ht : length (get_unique_teams df) = 2)
    by (rewrite Hdf; reflexivity).
  exists df, fs. split; [exact Hread|]. split; [exact Hmain|].
  split; [exact Hp|]. split; [exact Ht|]. split; [exact Hdom|].
  specialize (Hle eq_refl).
  assert (Hsize : size fs = 1 + length (get_unique_players df)
                            + length (get_unique_teams df)).
  { apply (Heq eq_refl); rewrite Hdf;
      apply (bool_decide_unpack _); vm_compute; exact I. }
  rewrite Hp, Ht in Hle, Hsize. split; [exact Hle|exact Hsize].
Defined.

(** X15. In a run that completes, the home page is the one made from the
    frame, its counts are the numbers of its links, and every team link on
    it leads to a team page of the run. *)
Theorem home_page_links
  (csv_files : list (option (list Row))) (fs0 fs : gmap string Page) :
  main csv_files fs0 = (Ok tt, fs) ->
  exists df home,
    read_all_csvs csv_files = Ok df
    /\ fs !! "index.html" = Some (HomeP home)
    /\ home_page df = HomeP home
    /\ hp_player_count home = length (hp_players home)
    /\ hp_team_count home = length (hp_teams home)
    /\ text <$> hp_players home = get_unique_players df
    /\ forall link, link ∈ hp_teams home ->
         exists page, fs !! tl_href link = Some (TeamP page).
Proof.
  intros Hmain.
  destruct (main_completed _ _ _ Hmain) as (df & fs1 & Hread & Hp & Ht).
  exists df. eexists. split; [done|]. split_and!.
  - rewrite (for_each_frame _ _ _ _ _ _ _ "index.html"
               (team_body_writes df) Ht) by done.
    rewrite (for_each_frame _ _ _ _ _ _ _ "index.html"
               (player_body_writes df _) Hp) by done.
    apply lookup_insert_eq.
  - reflexivity.
  - simpl. by rewrite length_map.
  - simpl. by rewrite length_map.
  - simpl. rewrite <- list_fmap_compose. apply list_fmap_id.
  - simpl. intros link Hlink.
    apply list_elem_of_fmap in Hlink as (t & -> & Hin).
    destruct (for_each_last_write _ _ _ _ _ _ t (team_body_writes df) Ht Hin)
      as (winner & page & _ & Hout & Hlook).
    unfold team_outcome in Hout.
    destruct (get_team_data _ _ _) as [td|]; [|done].
    injection Hout as <-. eexists. exact Hlook.
Qed.

Lemma home_page_links_witness :
  exists df fs home,
    read_all_csvs two_season_files = Ok df
    /\ main two_season_files ∅ = (Ok tt, fs)
    /\ fs !! "index.html" = Some (HomeP home)
    /\ hp_player_count home = 2 /\ hp_team_count home = 2
    /\ text <$> hp_players home = ["Alex Lee"; "Sam Roy"]
    /\ tl_href <$> hp_teams home
       = ["teams/7_2023_2024.html"; "teams/7_2024_2025.html"]
    /\ (exists page, fs !! "teams/7_2023_2024.html" = Some (TeamP page))
    /\ (exists page, fs !! "teams/7_2024_2025.html" = Some (TeamP page)).
Proof.
  set (df0 := [ mkRow 7 "2023/2024" "Thunder" "Alex Lee" "2025-01-05T10:00:00";
                mkRow 7 "2024/2025" "Thunder" "Sam Roy" "2025-01-05T10:00:00" ]).
  assert (Hread0 : read_all_csvs two_season_files = Ok df0) by reflexivity.
  destruct (run_completes two_season_files df0 ∅ Hread0) as [fs Hmain].
  { intros name Hname. vm_compute in Hname.
    apply elem_of_cons in Hname as [->|Hname];
      [eexists; vm_compute; reflexivity|].
    apply elem_of_cons in Hname as [->|Hname];
      [eexists; vm_compute; reflexivity|].
    by apply elem_of_nil in Hname. }
  destruct (home_page_links two_season_files ∅ fs Hmain)
    as (df & home & Hread & Hlook & Hhome & Hpc & Htc & Hplayers & Hteams).
  assert (Hdf : df = df0) by congruence.
  rewrite Hdf in Hhome. vm_compute in Hhome.
  injection Hhome as Hhome.
  exists df, fs, home. split; [exact Hread|]. split; [exact Hmain|].
  split; [exact Hlook|].
  split; [rewrite <- Hhome; reflexivity|].
  split; [rewrite <- Hhome; reflexivity|].
  split; [rewrite <- Hhome; reflexivity|].
  split; [rewrite <- Hhome; reflexivity|].
  split.
  - apply (Hteams (mkTeamLink "teams/7_2023_2024.html" "Thunder" "2023/2024")).
    rewrite <- Hhome. simpl. apply elem_of_cons. left. reflexivity.
  - apply (Hteams (mkTeamLink "teams/7_2024_2025.html" "Thunder" "2024/2025")).
    rewrite <- Hhome. simpl. apply elem_of_cons. right.
    apply elem_of_cons. left. reflexivity.
Defined.

(** ** Seasons with a year *)

Lemma digit_not_space c : Char.is_digit c = true -> int_space c = false.
Proof. destruct c as [[] [] [] [] [] [] [] []]; vm_compute; congruence. Qed.

Lemma digit_not_sign c :
  Char.is_digit c = true ->
  (Char.code c =? 45)%N = false /\ (Char.code c =? 43)%N = false
  /\ (Char.code c =? 47)%N = false.
Proof. destruct c as [[] [] [] [] [] [] [] []]; vm_compute; auto; congruence. Qed.

Lemma drop_space_digit c l :
  Char.is_digit c = true -> drop_space (c :: l) = c :: l.
Proof. intros H. simpl. by rewrite (digit_not_space c H). Qed.

Lemma strip_digits e :
  forallb Char.is_digit e = true -> strip e = e.
Proof.
  intros H. unfold strip. destruct e as [|c l]; [done|].
  simpl in H. apply andb_true_iff in H as [Hc Hl].
  rewrite (drop_space_digit c l Hc).
  destruct (rev (c :: l)) as [|d r] eqn:E.
  { apply (f_equal (@length _)) in E. rewrite length_rev in E. done. }
  assert (Hd : Char.is_digit d = true).
  { assert (Hin : In d (c :: l)).
    { apply in_rev. rewrite E. by left. }
    assert (Hall : forallb Char.is_digit (c :: l) = true)
      by (simpl; by rewrite Hc, Hl).
    rewrite forallb_forall in Hall. by apply Hall. }
  rewrite (drop_space_digit d r Hd), <- E. apply rev_involutive.
Qed.

Lemma int_body_digits acc n b e :
  forallb Char.is_digit e = true -> e <> [] ->
  (n + N.of_nat (length e) <= max_str_digits)%N ->
  int_body acc n b e
  = Some (fold_left (fun a c => (10 * a + Char.digit_val c)%N) e acc).
Proof.
  revert acc n b. induction e as [|c l IH]; intros acc n b H Hne Hn; [done|].
  simpl in H. apply andb_true_iff in H as [Hc Hl].
  cbn [int_body fold_left]. rewrite Hc.
  destruct l as [|d l'].
  - cbn [int_body fold_left andb]. cbn [length] in Hn.
    by rewrite (proj2 (N.leb_le _ _)) by lia.
  - apply IH; [done|done|]. cbn [length] in *. lia.
Qed.

Lemma py_int_digits e :
  forallb Char.is_digit e = true -> e <> [] -> length e <= 4 ->
  py_int (string_of_list_ascii e) = Some (Z.of_N (int_of_digits e)).
Proof.
  intros H Hne Hlen. unfold py_int.
  rewrite list_ascii_of_string_of_list_ascii, (strip_digits e H).
  destruct e as [|c l]; [done|].
  assert (Hc : Char.is_digit c = true).
  { simpl in H. by apply andb_true_iff in H as [? _]. }
  destruct (digit_not_sign c Hc) as (-> & -> & _).
  rewrite (int_body_digits 0 0 false (c :: l) H); [done|done|].
  unfold max_str_digits. lia.
Qed.

Lemma before_slash_digits e rest :
  forallb Char.is_digit e = true ->
  before_slash (string_of_list_ascii e +:+ "/" +:+ rest)
  = string_of_list_ascii e.
Proof.
  induction e as [|c l IH]; intros H; [done|].
  simpl in H. apply andb_true_iff in H as [Hc Hl]. simpl.
  destruct (digit_not_sign c Hc) as (_ & _ & ->). f_equal. by apply IH.
Qed.

Lemma season_key_with_year s :
  has_pattern (list_ascii_of_string s) ->
  exists n, season_key (normalize_season s) = KInt n.
Proof.
  intros H. apply search_complete in H as [[y1 y2] E].
  unfold normalize_season. rewrite E.
  apply search_Some in E as (pre & sep & post & (_ & T1 & _ & _) & _).
  destruct (expand_year_shape y1 T1) as [D1 L1].
  unfold season_key. rewrite before_slash_digits by done.
  rewrite py_int_digits; [by eexists|done| |lia].
  intros E. rewrite E in L1. simpl in L1. lia.
Qed.

Lemma search_has_pattern s : is_Some (Re.search s) -> has_pattern s.
Proof.
  intros [[y1 y2] E].
  apply search_Some in E as (pre & sep & post & Hocc & _).
  by exists pre, y1, sep, y2, post.
Qed.

(** X16. A season that holds the pattern of two years sorts by an integer
    after normalization. So when every season of the input holds the
    pattern, the sort of the memberships raises for no player, and it puts
    the memberships of every player in ascending order of the year. *)
Theorem year_seasons_sort
  (csv_files : list (option (list Row))) (df : list Row) :
  read_all_csvs csv_files = Ok df ->
  (forall raw, raw ∈ raw_rows csv_files ->
     has_pattern (list_ascii_of_string (season raw))) ->
  (forall r, r ∈ df -> exists n, season_key (season r) = KInt n)
  /\ forall name,
       exists teams,
         sorted_teams (get_player_data df name) = Ok teams
         /\ teams ≡ₚ pd_teams (get_player_data df name)
         /\ Sorted year_le teams.
Proof.
  intros Hread Hpat.
  assert (Hkey : forall r, r ∈ df -> exists n, season_key (season r) = KInt n).
  { intros r Hr. pose proof (read_all_csvs_Ok _ _ Hread) as ->.
    rewrite elem_of_drop_duplicates, loaded_rows_raw, list_elem_of_fmap in Hr.
    destruct Hr as (raw & -> & Hraw). simpl.
    by apply season_key_with_year, Hpat. }
  split; [exact Hkey|]. intros name.
  set (key := fun t => season_key (m_season t)).
  set (l := pd_teams (get_player_data df name)).
  assert (Hint : forall m, m ∈ l -> exists n,
                   year_of m = Some n /\ key m = KInt n).
  { intros m Hm. unfold l in Hm. simpl in Hm.
    apply list_elem_of_fmap in Hm as (r & -> & Hr).
    apply list_elem_of_filter in Hr as [_ Hr].
    destruct (Hkey r Hr) as [n Hn]. exists n. split; [|exact Hn].
    by apply season_key_int. }
  assert (Hsort : sorted_teams (get_player_data df name)
                  = Ok (sorted key_ltb key l)).
  { apply sorted_teams_one_kind. intros a b Ha Hb.
    destruct (Hint a Ha) as (? & _ & Ea), (Hint b Hb) as (? & _ & Eb).
    unfold key in Ea, Eb. by rewrite Ea, Eb. }
  exists (sorted key_ltb key l). split; [exact Hsort|].
  split; [apply sorted_perm|].
  eapply Sorted_weaken; [|apply sorted_Sorted, key_ltb_asym].
  intros a b Ha Hb. rewrite elem_of_sorted in Ha, Hb.
  destruct (Hint a Ha) as (x & Hx & Hkx), (Hint b Hb) as (y & Hy & Hky).
  unfold in_order. rewrite Hkx, Hky. simpl. intros Hlt.
  exists x, y. split_and!; auto. apply Z.ltb_ge in Hlt. lia.
Qed.

Lemma year_seasons_sort_witness :
  let files :=
    [ Some [ mkRow 1 "23/24 Season" "Lightning" "Alex Lee" "2025-01-05";
             mkRow 2 "2021-22" "Thunder" "Alex Lee" "2025-01-05" ] ] in
  exists df teams,
    read_all_csvs files = Ok df
    /\ season <$> df = ["2023/2024"; "2021/2022"]
    /\ sorted_teams (get_player_data df "Alex Lee") = Ok teams
    /\ m_season <$> teams = ["2021/2022"; "2023/2024"]
    /\ Sorted year_le teams.
Proof.
  intros files.
  set (df := [ mkRow 1 "2023/2024" "Lightning" "Alex Lee" "2025-01-05";
               mkRow 2 "2021/2022" "Thunder" "Alex Lee" "2025-01-05" ]).
  assert (Hread : read_all_csvs files = Ok df) by reflexivity.
  destruct (year_seasons_sort files df Hread) as [_ Hsorted].
  { intros raw Hraw. vm_compute in Hraw.
    apply elem_of_cons in Hraw as [->|Hraw];
      [apply search_has_pattern; vm_compute; by eexists|].
    apply elem_of_cons in Hraw as [->|Hraw];
      [apply search_has_pattern; vm_compute; by eexists|].
    by apply elem_of_nil in Hraw. }
  destruct (Hsorted "Alex Lee") as (teams & Hsort & _ & Hord).
  exists df, teams. split; [exact Hread|].
  split; [reflexivity|]. split; [exact Hsort|].
  split; [|exact Hord].
  vm_compute in Hsort. injection Hsort as Hsort.
  rewrite <- Hsort. reflexivity.
Defined.

(** ** The player page *)

(** X17. The page of a player carries the name, counts one team per row of
    the player in the frame, has one card per team and numbers the cards
    from one in their order. The number of unique teammates of a player of
    the frame is below the number of players. *)
Theorem player_page_counts
  (df : list Row) (name path : string) (page : PlayerPage) :
  player_page (get_player_data df name) = Ok (path, page) ->
  pp_player_name page = name
  /\ pp_teams_played page
     = length (filter (fun r => player_name r = name) df)
  /\ length (pp_cards page) = pp_teams_played page
  /\ (forall i card, pp_cards page !! i = Some card -> tc_number card = S i)
  /\ (name ∈ get_unique_players df ->
      pp_unique_teammates page < length (get_unique_players df)).
Proof.
  unfold player_page.
  destruct (sorted_teams (get_player_data df name)) as [teams|] eqn:Hsort;
    [|done].
  simpl. intros [= <- <-]. simpl.
  pose proof (sorted_r_perm _ _ _ _ Hsort) as Hperm.
  split_and!.
  - done.
  - rewrite Hperm. simpl. by rewrite length_map.
  - by rewrite length_imap.
  - intros i card Hi. rewrite list_lookup_imap in Hi.
    destruct (teams !! i); [|done]. by injection Hi as <-.
  - intros Hname.
    set (players := get_unique_players df).
    assert (Hsub : (list_to_set (concat (map m_teammates teams)) : gset string)
                   ⊆ list_to_set players ∖ {[name]}).
    { intros mate Hmate. apply elem_of_list_to_set in Hmate.
      apply list_elem_of_In, in_concat in Hmate as (mates & Hmates & Hmate).
      apply list_elem_of_In, list_elem_of_fmap in Hmates as (m & -> & Hm).
      apply list_elem_of_In in Hmate. rewrite Hperm in Hm. simpl in Hm.
      apply list_elem_of_fmap in Hm as (row & -> & _). simpl in Hmate.
      apply elem_of_difference. split.
      - apply elem_of_list_to_set. by eapply teammates_are_players.
      - intros Heq. apply elem_of_singleton in Heq as ->.
        unfold teammates_of in Hmate.
        rewrite elem_of_sorted, list_elem_of_fmap in Hmate.
        destruct Hmate as (r & Hr & Hin).
        apply list_elem_of_filter in Hin as [[_ Hne] _]. congruence. }
    apply subseteq_size in Hsub. rewrite size_difference in Hsub.
    + rewrite size_singleton, (size_list_to_set players) in Hsub.
      * assert (0 < length players); [|lia].
        clear Hsub. fold players in Hname.
        destruct players; [by apply elem_of_nil in Hname|simpl; lia].
      * unfold players, get_unique_players. rewrite sorted_perm.
        apply NoDup_drop_duplicates.
    + intros x Hx. apply elem_of_singleton in Hx as ->.
      by apply elem_of_list_to_set.
Qed.

Lemma player_page_counts_witness :
  let df := [ mkRow 1 "2023/2024" "Lightning" "Alex Lee" "t";
              mkRow 1 "2023/2024" "Lightning" "Sam Roy" "t" ] in
  exists path page,
    player_page (get_player_data df "Alex Lee") = Ok (path, page)
    /\ pp_teams_played page
       = length (filter (fun r => player_name r = "Alex Lee") df).
Proof.
  intros df. do 2 eexists. split; [reflexivity|].
  match goal with |- pp_teams_played ?p = _ =>
    destruct (player_page_counts df "Alex Lee" "players/Alex_Lee.html" p
                eq_refl) as (_ & H & _)
  end.
  exact H.
Defined.

Lemma completed_run_links_witness :
  let csv_files := [Some [mkRow 1 "2023/2024" "Lightning" "Al" "t"]] in
  let fs := snd (main csv_files ∅) in
  let df := [mkRow 1 "2023/2024" "Lightning" "Al" "t"] in
  exists name,
    href (mkLink "players/Al.html" "Al")
    = to_root (home_page df) +:+ player_file name
    /\ is_Some (fs !! player_file name).
Proof.
  intros csv_files fs df.
  apply (completed_run_links csv_files fs "index.html" (home_page df)).
  - vm_compute. reflexivity.
  - vm_compute. reflexivity.
  - assert (player_links (home_page df) = [mkLink "players/Al.html" "Al"])
      as -> by (vm_compute; reflexivity).
    apply list_elem_of_singleton. reflexivity.
Defined.

(** * Properties of the fetcher *)

Lemma find_first {A} (f : A -> bool) l x :
  List.find f l = Some x
  <-> exists pre post,
        l = pre ++ x :: post /\ Forall (fun y => f y = false) pre
        /\ f x = true.
Proof.
  induction l as [|y l IH]; simpl.
  - split; [done|]. intros (pre & post & H & _). by destruct pre.
  - destruct (f y) eqn:E.
    + split.
      * intros [= ->]. exists [], l. by split_and!.
      * intros (pre & post & H & Hpre & Hx). destruct pre as [|z pre].
        -- by injection H as ->.
        -- injection H as -> _. apply Forall_cons in Hpre as [? _].
           congruence.
    + rewrite IH. split.
      * intros (pre & post & -> & Hpre & Hx). exists (y :: pre), post.
        split_and!; auto.
      * intros (pre & post & H & Hpre & Hx). destruct pre as [|z pre].
        -- injection H as -> _. congruence.
        -- injection H as -> ->. apply Forall_cons in Hpre as [_ ?].
           by exists pre, post.
Qed.

Lemma find_none {A} (f : A -> bool) l :
  List.find f l = None <-> Forall (fun y => f y = false) l.
Proof.
  induction l as [|y l IH]; simpl; [by split|].
  destruct (f y) eqn:E.
  - split; [done|]. intros H. apply Forall_cons in H as [? _]. congruence.
  - rewrite IH. split; [by constructor|].
    intros H. by apply Forall_cons in H as [_ ?].
Qed.

Lemma h2_is_name_spec text :
  Fetch.h2_is_name text = true
  <-> Fetch.str_isdigit text = false /\ 1 < String.length text.
Proof.
  unfold Fetch.h2_is_name, Fetch.truthy.
  rewrite !andb_true_iff, !negb_true_iff, Nat.ltb_lt, !String.eqb_neq.
  split; [tauto|]. intros [Hd Hl]. split_and!; auto; intros ->; simpl in Hl; lia.
Qed.

Lemma find_last_name_spec p last :
  Fetch.find_last_name p = Some last ->
  Fetch.str_isdigit last = false /\ 1 < String.length last
  /\ last <> "#" /\ last <> ""
  /\ (last ∈ Fetch.h2_texts p
      \/ (last ∈ Fetch.other_texts p
          /\ Some last <> Fetch.h3_text p
          /\ String.prefix "#" last = false
          /\ existsb Fetch.char_isalpha (list_ascii_of_string last) = true
          /\ String.length last <= 30)).
Proof.
  unfold Fetch.find_last_name.
  destruct (List.find Fetch.h2_is_name _) as [text|] eqn:E.
  - intros [= ->]. apply find_first in E as (pre & post & E & _ & Hn).
    apply h2_is_name_spec in Hn as [? Hlen]. split_and!; auto.
    + intros ->. simpl in Hlen. lia.
    + intros ->. simpl in Hlen. lia.
    + left. rewrite E, elem_of_app, elem_of_cons. auto.
  - intros H. apply find_first in H as (pre & post & H & _ & Hn).
    unfold Fetch.other_is_name, Fetch.truthy in Hn.
    rewrite !andb_true_iff, !negb_true_iff, Nat.ltb_lt, Nat.leb_le in Hn.
    destruct Hn as [[[[[[? ?] ?] Hlen] Hf] ?] [? ?]].
    apply bool_decide_eq_false in Hf.
    split_and!; auto.
    + by apply String.eqb_neq.
    + intros ->. simpl in Hlen. lia.
    + right. split_and!; auto. rewrite H, elem_of_app, elem_of_cons. auto.
Qed.

(** X18. A player the fetcher extracts is named by a first name that is not
    empty, a space, and a last name of more than one character that is not
    a number and not the sign [#]; the last name is the text of an [h2], or
    of another element, and then it differs from the first name, does not
    start with [#], holds a letter and has at most thirty characters. *)
Theorem extracted_player (p : Fetch.Participant) (name : string) :
  Fetch.extract p = Fetch.Player name ->
  exists first last,
    Fetch.h3_text p = Some first /\ first <> ""
    /\ name = first +:+ " " +:+ last
    /\ Fetch.str_isdigit last = false /\ 1 < String.length last
    /\ last <> "#"
    /\ (last ∈ Fetch.h2_texts p
        \/ (last ∈ Fetch.other_texts p
            /\ last <> first
            /\ String.prefix "#" last = false
            /\ existsb Fetch.char_isalpha (list_ascii_of_string last) = true
            /\ String.length last <= 30)).
Proof.
  unfold Fetch.extract.
  destruct (Fetch.h3_text p) as [first|] eqn:Hf; [|done].
  destruct (Fetch.find_last_name p) as [last|] eqn:Hl; simpl.
  - destruct (find_last_name_spec p last Hl) as (? & ? & ? & ? & Hfrom).
    destruct (Fetch.truthy first) eqn:Ef; simpl; [|done].
    destruct (Fetch.truthy last) eqn:El; simpl.
    + destruct (bool_decide _); simpl; [done|]. intros [= <-].
      exists first, last. split_and!; auto.
      * unfold Fetch.truthy in Ef. apply negb_true_iff in Ef.
        by apply String.eqb_neq.
      * destruct Hfrom as [?|(? & Hne & ? & ? & ?)]; [by left|right].
        split_and!; auto. rewrite Hf in Hne. congruence.
    + done.
  - rewrite andb_false_r. simpl. by destruct (Fetch.truthy first).
Qed.

Lemma extracted_player_witness :
  exists first last,
    Fetch.h3_text (Fetch.mkParticipant (Some "Alex") ["12"; "Lee"] [])
    = Some first
    /\ first <> "" /\ "Alex Lee" = first +:+ " " +:+ last
    /\ Fetch.str_isdigit last = false.
Proof.
  destruct (extracted_player
              (Fetch.mkParticipant (Some "Alex") ["12"; "Lee"] [])
              "Alex Lee" eq_refl)
    as (first & last & H1 & H2 & H3 & H4 & _).
  by exists first, last.
Defined.

(** X19. What the fetcher makes of a participant. Without a first name
    nothing is recorded. With one, the last name is the first [h2] text that
    is longer than one character and not a number, whatever the other
    elements hold: jersey numbers before it are passed over. With a first
    name and no last name among the [h2] and the other elements, the
    participant is left out with a warning. *)
Theorem extract_cases (p : Fetch.Participant) :
  (Fetch.truthy_opt (Fetch.h3_text p) = false ->
   Fetch.extract p = Fetch.Nothing)
  /\ forall first,
       Fetch.h3_text p = Some first -> first <> "" ->
       (forall pre last post,
          Fetch.h2_texts p = pre ++ last :: post ->
          Forall (fun t => Fetch.str_isdigit t = true
                           \/ String.length t <= 1) pre ->
          Fetch.str_isdigit last = false -> 1 < String.length last ->
          Fetch.extract p = Fetch.Player (first +:+ " " +:+ last))
       /\ (Forall (fun t => Fetch.h2_is_name t = false) (Fetch.h2_texts p) ->
           Forall (fun t => Fetch.other_is_name (Some first) t = false)
                  (Fetch.other_texts p) ->
           Fetch.extract p = Fetch.Warning first).
Proof.
  split.
  { unfold Fetch.extract. by intros ->. }
  intros first Hf Hne.
  assert (Ht : Fetch.truthy first = true).
  { unfold Fetch.truthy. apply negb_true_iff. by apply String.eqb_neq. }
  split.
  - intros pre last post Hh2 Hpre Hd Hl.
    assert (Hfind : Fetch.find_last_name p = Some last).
    { unfold Fetch.find_last_name.
      assert (List.find Fetch.h2_is_name (Fetch.h2_texts p) = Some last) as ->;
        [|done].
      apply find_first. exists pre, post. split_and!; auto.
      - eapply Forall_impl; [exact Hpre|]. intros t Hcase. simpl in Hcase.
        destruct (Fetch.h2_is_name t) eqn:E; [|done].
        apply h2_is_name_spec in E as [? ?].
        destruct Hcase; [congruence|lia].
      - by apply h2_is_name_spec. }
    unfold Fetch.extract. rewrite Hf, Hfind. simpl. rewrite Ht. simpl.
    assert (Fetch.truthy last = true) as ->.
    { unfold Fetch.truthy. apply negb_true_iff, String.eqb_neq.
      intros ->. simpl in Hl. lia. }
    rewrite bool_decide_eq_false_2; [done|].
    intros [= ->]. simpl in Hl. lia.
  - intros Hh2 Hother.
    assert (Hfind : Fetch.find_last_name p = None).
    { unfold Fetch.find_last_name. rewrite (proj2 (find_none _ _) Hh2).
      rewrite Hf. by apply find_none. }
    unfold Fetch.extract. rewrite Hf, Hfind. simpl. by rewrite Ht.
Qed.

Lemma extract_cases_witness :
  Fetch.extract (Fetch.mkParticipant (Some "Alex") ["12"; "#"; "Lee"] ["x"])
  = Fetch.Player "Alex Lee".
Proof.
  apply (proj1 (proj2 (extract_cases
           (Fetch.mkParticipant (Some "Alex") ["12"; "#"; "Lee"] ["x"]))
           "Alex" eq_refl ltac:(done)) ["12"; "#"] "Lee" []).
  - reflexivity.
  - apply Forall_cons. split; [left; reflexivity|].
    apply Forall_cons. split; [right; simpl; lia|constructor].
  - reflexivity.
  - simpl. lia.
Defined.

(** X20. The fetcher raises when the request gets no response or a status
    from 400 to 599, and only then. Otherwise its frame has one row per
    extracted player, in the order of the page; every row carries the team
    id asked for, the season label and the name of the header of the page,
    and the time of the fetch; rows and warnings together are at most as
    many as the participants. A page without a header gives rows without
    season and team name. *)
Theorem fetch_team_roster_spec
  (resp : Fetch.response) (fetched_at : string) (team_id : Z) :
  match Fetch.fetch_team_roster resp fetched_at team_id with
  | inl e =>
      (resp = Fetch.NoResponse /\ e = Fetch.RequestException)
      \/ exists status soup,
           resp = Fetch.Response status soup
           /\ (400 <= status < 600)%Z /\ e = Fetch.HTTPError status
  | inr (rows, warnings) =>
      exists status soup,
        resp = Fetch.Response status soup
        /\ ~ (400 <= status < 600)%Z
        /\ Fetch.r_player_name <$> rows
           = omap (fun p => Fetch.player_of (Fetch.extract p))
                  (Fetch.participants soup)
        /\ length rows + length warnings <= length (Fetch.participants soup)
        /\ (forall r, r ∈ rows ->
              Fetch.r_team_id r = team_id
              /\ Fetch.r_fetched_at r = fetched_at
              /\ Fetch.r_season r
                 = Fetch.team_header soup ≫= Fetch.label_text
              /\ Fetch.r_team_name r
                 = Fetch.team_header soup ≫= Fetch.h1_text)
        /\ (Fetch.team_header soup = None ->
            forall r, r ∈ rows ->
              Fetch.r_season r = None /\ Fetch.r_team_name r = None)
  end.
Proof.
  unfold Fetch.fetch_team_roster. destruct resp as [|status soup].
  { by left. }
  destruct ((400 <=? status)%Z && (status <? 600)%Z) eqn:E.
  - right. exists status, soup. apply andb_true_iff in E as [E1 E2].
    apply Z.leb_le in E1. apply Z.ltb_lt in E2. split_and!; auto.
  - exists status, soup. split_and!; auto.
    + intros [H1 H2]. apply Z.leb_le in H1. apply Z.ltb_lt in H2.
      by rewrite H1, H2 in E.
    + generalize (Fetch.participants soup).
      induction l as [|p l IH]; simpl; [done|].
      destruct (Fetch.player_of (Fetch.extract p)); simpl; [f_equal|]; exact IH.
    + rewrite length_map. generalize (Fetch.participants soup).
      induction l as [|p l IH]; simpl; [done|].
      destruct (Fetch.extract p); simpl; unfold omap in IH; lia.
    + intros r Hr. apply list_elem_of_fmap in Hr as (player & -> & _). done.
    + intros Hnone r Hr. apply list_elem_of_fmap in Hr as (player & -> & _).
      simpl. by rewrite Hnone.
Qed.

(** * Properties of the crawl driver *)

Section CrawlProperties.
Variable http : Z -> Fetch.response.
Variable clock : Z -> string.

Lemma elem_of_range a b tid : tid ∈ Crawl.range a b <-> (a <= tid < b)%Z.
Proof.
  unfold Crawl.range. rewrite list_elem_of_fmap. split.
  - intros (i & -> & Hi). apply list_elem_of_In, in_seq in Hi. lia.
  - intros H. exists (Z.to_nat (tid - a)). split; [lia|].
    apply list_elem_of_In, in_seq. lia.
Qed.

Lemma length_range a b : length (Crawl.range a b) = Z.to_nat (b - a).
Proof. unfold Crawl.range. by rewrite length_map, length_seq. Qed.

Lemma crawl_step start_id st tid :
  Crawl.frames (Crawl.step http clock start_id st tid)
  = Crawl.frames st ++ omap (Crawl.fetched http clock) [tid]
  /\ Crawl.failed (Crawl.step http clock start_id st tid)
     = Crawl.failed st
       ++ (match Crawl.fetched http clock tid with
           | Some _ => []
           | None => [tid]
           end).
Proof.
  unfold Crawl.step, Crawl.fetched.
  destruct (Fetch.fetch_team_roster _ _ _) as [e|[df w]] eqn:E; simpl;
    rewrite ?E, ?app_nil_r; done.
Qed.

Lemma crawl_fold start_id ids st :
  let st' := fold_left (Crawl.step http clock start_id) ids st in
  Crawl.frames st'
  = Crawl.frames st ++ omap (Crawl.fetched http clock) ids
  /\ Crawl.failed st'
     = Crawl.failed st
       ++ filter (fun tid => Crawl.fetched http clock tid = None) ids.
Proof.
  revert st. induction ids as [|tid ids IH]; intros st; simpl.
  { by rewrite !app_nil_r. }
  destruct (IH (Crawl.step http clock start_id st tid)) as [Hf Hd].
  destruct (crawl_step start_id st tid) as [Hf1 Hd1].
  rewrite Hf, Hd, Hf1, Hd1, <- !app_assoc. simpl.
  destruct (Crawl.fetched http clock tid) as [df|] eqn:E.
  - by rewrite filter_cons_False by (by rewrite E).
  - by rewrite filter_cons_True by done.
Qed.

Lemma fetched_team_id tid df r :
  Crawl.fetched http clock tid = Some df -> r ∈ df -> Fetch.r_team_id r = tid.
Proof.
  unfold Crawl.fetched, Fetch.fetch_team_roster.
  destruct (http tid) as [|status soup]; [done|].
  destruct (_ && _); [done|]. intros [= <-] Hr.
  by apply list_elem_of_fmap in Hr as (player & -> & _).
Qed.

(** X21. The crawl saves a file exactly when the fetch of some team id of
    the range does not raise, be it a page without players; a fetch that
    raises is passed over. The file is named after the first and the last id
    of the range, and holds the rows of the fetched teams in ascending order
    of the team id, all of them with a team id of the range. *)
Theorem crawl_main_spec (start_id num_teams : Z) :
  match Crawl.main http clock start_id num_teams with
  | None =>
      forall tid, (start_id <= tid < start_id + num_teams)%Z ->
                  Crawl.fetched http clock tid = None
  | Some (filename, rows) =>
      filename = "ArlingtonIce-" +:+ str_of_int start_id +:+ "-"
                 +:+ str_of_int (start_id + num_teams - 1) +:+ ".csv"
      /\ (exists tid, (start_id <= tid < start_id + num_teams)%Z
                      /\ is_Some (Crawl.fetched http clock tid))
      /\ rows = concat (omap (Crawl.fetched http clock)
                             (Crawl.range start_id (start_id + num_teams)))
      /\ (forall r, r ∈ rows
            <-> exists tid df,
                  (start_id <= tid < start_id + num_teams)%Z
                  /\ Crawl.fetched http clock tid = Some df /\ r ∈ df)
      /\ (forall r, r ∈ rows ->
            (start_id <= Fetch.r_team_id r <= start_id + num_teams - 1)%Z)
  end.
Proof.
  unfold Crawl.main, Crawl.crawl_loop.
  destruct (crawl_fold start_id
              (Crawl.range start_id (start_id + num_teams))
              (Crawl.mkCrawl [] "" [])) as [Hf _].
  simpl in Hf. rewrite Hf. clear Hf.
  set (ids := Crawl.range start_id (start_id + num_teams)).
  assert (Hin : forall r,
    r ∈ concat (omap (Crawl.fetched http clock) ids)
    <-> exists tid df, (start_id <= tid < start_id + num_teams)%Z
          /\ Crawl.fetched http clock tid = Some df /\ r ∈ df).
  { intros r. rewrite list_elem_of_In, in_concat. split.
    - intros (df & Hdf & Hr).
      apply list_elem_of_In, list_elem_of_omap in Hdf as (tid & Htid & Hfetch).
      exists tid, df. split; [by apply elem_of_range|].
      split; [done|by apply list_elem_of_In].
    - intros (tid & df & Htid & Hfetch & Hr). exists df. split.
      + apply list_elem_of_In, list_elem_of_omap. exists tid.
        split; [by apply elem_of_range|done].
      + by apply list_elem_of_In. }
  destruct (omap (Crawl.fetched http clock) ids) as [|df dfs] eqn:E.
  - intros tid Htid. apply elem_of_range in Htid. fold ids in Htid.
    destruct (Crawl.fetched http clock tid) as [df|] eqn:Hfetch; [|done].
    assert (H : df ∈ omap (Crawl.fetched http clock) ids)
      by (apply list_elem_of_omap; eauto).
    rewrite E in H. by apply elem_of_nil in H.
  - split_and!; auto.
    + assert (H : df ∈ omap (Crawl.fetched http clock) ids)
        by (rewrite E; apply elem_of_cons; by left).
      apply list_elem_of_omap in H as (tid & Htid & Hfetch).
      exists tid. split; [by apply elem_of_range|by eexists].
    + intros r Hr. apply Hin in Hr as (tid & df' & Htid & Hfetch & Hr).
      rewrite (fetched_team_id tid df' r Hfetch Hr). lia.
Qed.

Lemma count_dots_progress start_id tid :
  length (filter (fun c => c = "."%char)
            (list_ascii_of_string (Crawl.progress start_id tid))) = 1.
Proof.
  unfold Crawl.progress.
  destruct (_ =? 0)%Z; destruct (_ =? 0)%Z; reflexivity.
Qed.

Lemma crawl_marks start_id ids st :
  length (filter (fun c => c = "."%char)
            (list_ascii_of_string
               (Crawl.marks (fold_left (Crawl.step http clock start_id) ids st))))
  = length (filter (fun c => c = "."%char)
              (list_ascii_of_string (Crawl.marks st)))
    + length (omap (Crawl.fetched http clock) ids).
Proof.
  revert st. induction ids as [|tid ids IH]; intros st.
  { simpl. by rewrite Nat.add_0_r. }
  cbn [fold_left]. rewrite IH. unfold Crawl.step.
  change (omap (Crawl.fetched http clock) (tid :: ids))
    with (match Crawl.fetched http clock tid with
          | Some df => df :: omap (Crawl.fetched http clock) ids
          | None => omap (Crawl.fetched http clock) ids
          end).
  unfold Crawl.fetched at 2.
  destruct (Fetch.fetch_team_roster _ _ _) as [e|[df w]]; [done|].
  cbn [Crawl.marks length].
  rewrite list_ascii_of_string_app, filter_app, length_app.
  rewrite count_dots_progress. lia.
Qed.

(** X22. The accounting of the crawl loop. Every team id of the range is
    fetched once: the frames collected and the ids reported as failed are
    together as many as the range is long, the failed ids are exactly those
    of the range whose fetch raises, and one dot is printed per fetched
    team. With a count of zero or less nothing is fetched. *)
Theorem crawl_loop_accounting (start_id num_teams : Z) :
  let st := Crawl.crawl_loop http clock start_id num_teams in
  length (Crawl.frames st) + length (Crawl.failed st) = Z.to_nat num_teams
  /\ (forall tid, tid ∈ Crawl.failed st
        <-> (start_id <= tid < start_id + num_teams)%Z
            /\ Crawl.fetched http clock tid = None)
  /\ length (filter (fun c => c = "."%char)
               (list_ascii_of_string (Crawl.marks st)))
     = length (Crawl.frames st)
  /\ ((num_teams <= 0)%Z ->
      st = Crawl.mkCrawl [] "" []
      /\ Crawl.main http clock start_id num_teams = None).
Proof.
  intros st. unfold st, Crawl.crawl_loop.
  set (ids := Crawl.range start_id (start_id + num_teams)).
  destruct (crawl_fold start_id ids (Crawl.mkCrawl [] "" [])) as [Hf Hd].
  simpl in Hf, Hd. split_and!.
  - rewrite Hf, Hd.
    assert (Hlen : length ids = Z.to_nat num_teams).
    { unfold ids. rewrite length_range. f_equal. lia. }
    rewrite <- Hlen. clear. induction ids as [|tid ids IH]; [done|].
    change (omap (Crawl.fetched http clock) (tid :: ids))
      with (match Crawl.fetched http clock tid with
            | Some df => df :: omap (Crawl.fetched http clock) ids
            | None => omap (Crawl.fetched http clock) ids
            end).
    destruct (Crawl.fetched http clock tid) as [df|] eqn:E.
    + rewrite filter_cons_False by (by rewrite E). cbn [length]. lia.
    + rewrite filter_cons_True by done. cbn [length]. lia.
  - intros tid. rewrite Hd, list_elem_of_filter. unfold ids.
    rewrite elem_of_range. tauto.
  - rewrite (crawl_marks start_id ids), Hf. done.
  - intros Hnum. assert (Hids : ids = []).
    { unfold ids, Crawl.range.
      by replace (Z.to_nat (start_id + num_teams - start_id)) with 0 by lia. }
    unfold Crawl.main, Crawl.crawl_loop. fold ids. by rewrite Hids.
Qed.

End CrawlProperties.

Lemma crawl_loop_accounting_witness :
  Crawl.crawl_loop (fun _ => Fetch.NoResponse) (fun _ => "") 5 0
  = Crawl.mkCrawl [] "" []
  /\ Crawl.main (fun _ => Fetch.NoResponse) (fun _ => "") 5 0 = None.
Proof.
  apply (crawl_loop_accounting (fun _ => Fetch.NoResponse) (fun _ => "") 5 0).
  lia.
Defined.
